(** * harp: CSO secret path validation and the secret value codec

    A shallow embedding of
    - the CSO path validator ([Validate] and the six ring validators of
      package [cso/v1]), and
    - the secret packer ([Pack] / [Unpack] of [pkg/bundle/secret]),
    together with the parts of the Go libraries they call
    ([strings], [ozzo-validation], [blang/semver], [encoding/asn1]).

    Go strings and byte slices are byte sequences: both are lists of 8-bit
    characters here.  A Go function returning [error] becomes a computation
    in the monad [exec], which also has an outcome for a run-time panic
    (an index or a slice out of range), so that the absence of panics is a
    theorem and not an artefact of the model. *)

From Stdlib Require Import List Ascii String Bool Arith Lia NArith ZArith.
Import ListNotations.

Open Scope string_scope.
Open Scope list_scope.
Open Scope nat_scope.

(** ** Go strings *)

Definition gostring := list ascii.

Coercion list_ascii_of_string : string >-> list.

Definition byte_val (c : ascii) : N := N_of_ascii c.

Fixpoint string_eqb (a b : gostring) : bool :=
  match a, b with
  | [], [] => true
  | x :: a', y :: b' => Ascii.eqb x y && string_eqb a' b'
  | _, _ => false
  end.

Definition is_empty (s : gostring) : bool :=
  match s with [] => true | _ :: _ => false end.

(** [len(s) < n] and friends are computed on [nat] lengths. *)
Definition len {A} (l : list A) : nat := List.length l.

Module strings.

(** [strings.Split(s, sep)] for a one-byte separator: the pieces between
    the occurrences of [sep]; the empty string gives one empty piece. *)
Fixpoint Split (s : gostring) (sep : ascii) : list gostring :=
  match s with
  | [] => [[]]
  | c :: t =>
      if Ascii.eqb c sep then [] :: Split t sep
      else match Split t sep with
           | h :: r => (c :: h) :: r
           | [] => [[c]]
           end
  end.

(** [strings.Join(elems, sep)] for a one-byte separator. *)
Fixpoint Join (elems : list gostring) (sep : ascii) : gostring :=
  match elems with
  | [] => []
  | [e] => e
  | e :: rest => e ++ sep :: Join rest sep
  end.

(** [strings.Cut(s, sep)]: the text before and after the first [sep]. *)
Fixpoint Cut (s : gostring) (sep : ascii) : option (gostring * gostring) :=
  match s with
  | [] => None
  | c :: t =>
      if Ascii.eqb c sep then Some ([], t)
      else match Cut t sep with
           | Some (a, b) => Some (c :: a, b)
           | None => None
           end
  end.

(** [strings.SplitN(s, sep, n)] for [n >= 0]: at most [n] pieces, the
    last one being the unsplit remainder. *)
Fixpoint SplitN (s : gostring) (sep : ascii) (n : nat) : list gostring :=
  match n with
  | 0 => []
  | S n' =>
      match n' with
      | 0 => [s]
      | S _ =>
          match Cut s sep with
          | Some (a, b) => a :: SplitN b sep n'
          | None => [s]
          end
      end
  end.

(** [strings.ToLower] on ASCII text: the letters A-Z are mapped to a-z.
    (On bytes above 0x7F the library works on runes; such bytes never
    reach this function from [Validate], which rejects them first.) *)
Definition lower (c : ascii) : ascii :=
  if (65 <=? byte_val c)%N && (byte_val c <=? 90)%N
  then ascii_of_N (byte_val c + 32) else c.

Definition ToLower (s : gostring) : gostring := map lower s.

(** White space as [strings.TrimSpace] sees it in ASCII text:
    tab, line feed, vertical tab, form feed, carriage return, space. *)
Definition isSpace (c : ascii) : bool :=
  let n := byte_val c in
  ((9 <=? n)%N && (n <=? 13)%N) || (n =? 32)%N.

Fixpoint TrimLeftSpace (s : gostring) : gostring :=
  match s with
  | c :: t => if isSpace c then TrimLeftSpace t else s
  | [] => []
  end.

Definition TrimSpace (s : gostring) : gostring :=
  rev (TrimLeftSpace (rev (TrimLeftSpace s))).

(** [strings.TrimPrefix(s, prefix)] for a one-byte prefix. *)
Definition TrimPrefix (s : gostring) (prefix : ascii) : gostring :=
  match s with
  | c :: t => if Ascii.eqb c prefix then t else s
  | [] => []
  end.

End strings.

(** ** Errors and outcomes *)

(** The two rule errors of ozzo-validation that the validator can meet:
    "cannot be blank" and "must contain printable ASCII characters only". *)
Inductive rule_error := ErrRequired | ErrPrintableASCII.

(** Errors of [strconv.ParseUint] on a decimal text. *)
Inductive num_error := ErrSyntax | ErrRange.

(** The errors of [semver.Parse]; the quoted text of the message is kept
    as an argument. *)
Inductive semver_error :=
| VersionStringEmpty
| NoMajorMinorPatch
| InvalidCharMajor (s : gostring)
| LeadingZeroesMajor (s : gostring)
| InvalidCharMinor (s : gostring)
| LeadingZeroesMinor (s : gostring)
| InvalidCharPatch (s : gostring)
| LeadingZeroesPatch (s : gostring)
| ParseUintError (s : gostring) (e : num_error)
| PrereleaseEmpty
| LeadingZeroesPrerelease (s : gostring)
| InvalidCharPrerelease (s : gostring)
| BuildEmpty
| InvalidCharBuild (s : gostring).

(** One constructor for each [fmt.Errorf] of the validator, with the
    values the message is formatted from. *)
Inductive error :=
| ErrSecretPath (cause : rule_error)
| ErrPathPartCount
| ErrRingValue (ring : gostring)
| ErrMetaPartCount
| ErrMetaPath (part : gostring) (cause : rule_error)
| ErrInfraPartCount
| ErrInfraProvider (provider : gostring)
| ErrInfraAccount (account : gostring) (cause : rule_error)
| ErrInfraRegion (region account provider : gostring)
| ErrPlatformPartCount
| ErrPlatformLevel (level : gostring)
| ErrPlatformName (name : gostring) (cause : rule_error)
| ErrPlatformRegion (region : gostring)
| ErrPlatformService (name : gostring) (cause : rule_error)
| ErrProductPartCount
| ErrProductName (name : gostring) (cause : rule_error)
| ErrProductVersion (name version : gostring) (cause : semver_error)
| ErrAppPartCount
| ErrAppLevel (level : gostring)
| ErrAppPlatformName (name : gostring) (cause : rule_error)
| ErrAppProductName (name : gostring) (cause : rule_error)
| ErrAppVersion (name version : gostring) (cause : semver_error)
| ErrAppComponent (component version name : gostring) (cause : rule_error)
| ErrArtifactPartCount
| ErrArtifactType (part : gostring) (cause : rule_error).

(** A run of a Go function: a result, a returned error, or a panic. *)
Inductive exec (A : Type) : Type :=
| Return (a : A)
| Raise (e : error)
| Panic.

Arguments Return {A} a.
Arguments Raise {A} e.
Arguments Panic {A}.

Definition bind {A B} (m : exec A) (k : A -> exec B) : exec B :=
  match m with
  | Return a => k a
  | Raise e => Raise e
  | Panic => Panic
  end.

Notation "x <- m ;; k" := (bind m (fun x => k))
  (at level 61, m at next level, right associativity).

(** [return nil] *)
Definition Success : exec unit := Return tt.

(** [parts[i]]: panics when [i] is out of range. *)
Definition index (parts : list gostring) (i : nat) : exec gostring :=
  match nth_error parts i with
  | Some s => Return s
  | None => Panic
  end.

(** [parts[i:]]: panics when [i > len(parts)]. *)
Definition slice_from (parts : list gostring) (i : nat) : exec (list gostring) :=
  if i <=? len parts then Return (skipn i parts) else Panic.

(** [if err := ...; err != nil { return wrap(err) }] *)
Definition check {E} (r : option E) (wrap : E -> error) : exec unit :=
  match r with
  | Some e => Raise (wrap e)
  | None => Success
  end.

(** [if !cond { return err }] *)
Definition require (cond : bool) (e : error) : exec unit :=
  if cond then Success else Raise e.

(** ** ozzo-validation *)

Module validation.

Definition Rule := gostring -> option rule_error.

(** [validation.Required]: the value must not be the empty string. *)
Definition Required : Rule :=
  fun v => if is_empty v then Some ErrRequired else None.

(** [validation.Validate(value, rules...)]: the first failing rule. *)
Fixpoint Validate (value : gostring) (rules : list Rule) : option rule_error :=
  match rules with
  | [] => None
  | r :: rest =>
      match r value with
      | Some e => Some e
      | None => Validate value rest
      end
  end.

End validation.

Module is_.

(** The character class [\x20-\x7E]. *)
Definition printable (c : ascii) : bool :=
  (32 <=? byte_val c)%N && (byte_val c <=? 126)%N.

(** [is.PrintableASCII]: a string rule, so an empty value passes; any
    other value must match [^[\x20-\x7E]+$]. *)
Definition PrintableASCII : validation.Rule :=
  fun v =>
    if is_empty v then None
    else if forallb printable v then None
    else Some ErrPrintableASCII.

End is_.

(** [validation.Validate(x, validation.Required, is.PrintableASCII)] *)
Definition validate_text (x : gostring) : option rule_error :=
  validation.Validate x [validation.Required; is_.PrintableASCII].

(** ** blang/semver *)

Inductive result (A E : Type) : Type :=
| Ok (a : A)
| Err (e : E).

Arguments Ok {A E} a.
Arguments Err {A E} e.

Module strconv.

Definition digit (c : ascii) : option N :=
  let n := byte_val c in
  if (48 <=? n)%N && (n <=? 57)%N then Some (n - 48)%N else None.

Fixpoint digits (acc : N) (s : gostring) : option N :=
  match s with
  | [] => Some acc
  | c :: t =>
      match digit c with
      | Some d => digits (acc * 10 + d)%N t
      | None => None
      end
  end.

(** [strconv.ParseUint(s, 10, 64)]: a non-empty run of decimal digits
    whose value fits in 64 bits. *)
Definition ParseUint (s : gostring) : result N num_error :=
  if is_empty s then Err ErrSyntax
  else match digits 0%N s with
       | None => Err ErrSyntax
       | Some n => if (n <? 2 ^ 64)%N then Ok n else Err ErrRange
       end.

End strconv.

Module semver.

Definition numbers : gostring := "0123456789".

Definition alphanum : gostring :=
  "abcdefghijklmnopqrstuvwxyzABCDEFGHIJKLMNOPQRSTUVWXYZ0123456789-".

Definition containsOnly (s set : gostring) : bool :=
  forallb (fun c => existsb (Ascii.eqb c) set) s.

(** [len(s) > 1 && s[0] == '0'] *)
Definition hasLeadingZeroes (s : gostring) : bool :=
  match s with
  | c :: _ :: _ => Ascii.eqb c "0"%char
  | _ => false
  end.

Record PRVersion := {
  VersionStr : gostring;
  VersionNum : N;
  IsNum : bool
}.

Record Version := {
  Major : N;
  Minor : N;
  Patch : N;
  Pre : list PRVersion;
  Build : list gostring
}.

Definition NewPRVersion (s : gostring) : result PRVersion semver_error :=
  if is_empty s then Err PrereleaseEmpty
  else if containsOnly s numbers then
    if hasLeadingZeroes s then Err (LeadingZeroesPrerelease s)
    else match strconv.ParseUint s with
         | Err e => Err (ParseUintError s e)
         | Ok num => Ok {| VersionStr := []; VersionNum := num; IsNum := true |}
         end
  else if containsOnly s alphanum then
    Ok {| VersionStr := s; VersionNum := 0%N; IsNum := false |}
  else Err (InvalidCharPrerelease s).

(** One numeric field of the version: digits only, no leading zero,
    64 bits. *)
Definition number (s : gostring) (invalid leading : gostring -> semver_error)
  : result N semver_error :=
  if negb (containsOnly s numbers) then Err (invalid s)
  else if hasLeadingZeroes s then Err (leading s)
  else match strconv.ParseUint s with
       | Err e => Err (ParseUintError s e)
       | Ok n => Ok n
       end.

Fixpoint prereleases (l : list gostring) : result (list PRVersion) semver_error :=
  match l with
  | [] => Ok []
  | prstr :: rest =>
      match NewPRVersion prstr with
      | Err e => Err e
      | Ok parsedPR =>
          match prereleases rest with
          | Err e => Err e
          | Ok prs => Ok (parsedPR :: prs)
          end
      end
  end.

Fixpoint builds (l : list gostring) : result (list gostring) semver_error :=
  match l with
  | [] => Ok []
  | str :: rest =>
      if is_empty str then Err BuildEmpty
      else if negb (containsOnly str alphanum) then Err (InvalidCharBuild str)
      else match builds rest with
           | Err e => Err e
           | Ok bs => Ok (str :: bs)
           end
  end.

(** [semver.Parse] *)
Definition Parse (s : gostring) : result Version semver_error :=
  if is_empty s then Err VersionStringEmpty
  else
    match strings.SplitN s "."%char 3 with
    | [p0; p1; p2] =>
        match number p0 InvalidCharMajor LeadingZeroesMajor with
        | Err e => Err e
        | Ok major =>
        match number p1 InvalidCharMinor LeadingZeroesMinor with
        | Err e => Err e
        | Ok minor =>
          let '(patchStr, build) :=
            match strings.Cut p2 "+"%char with
            | Some (before, after) => (before, strings.Split after "."%char)
            | None => (p2, [])
            end in
          let '(patchStr, prerelease) :=
            match strings.Cut patchStr "-"%char with
            | Some (before, after) => (before, strings.Split after "."%char)
            | None => (patchStr, [])
            end in
          match number patchStr InvalidCharPatch LeadingZeroesPatch with
          | Err e => Err e
          | Ok patch =>
          match prereleases prerelease with
          | Err e => Err e
          | Ok pre =>
          match builds build with
          | Err e => Err e
          | Ok bld =>
              Ok {| Major := major; Minor := minor; Patch := patch;
                    Pre := pre; Build := bld |}
          end end end
        end end
    | _ => Err NoMajorMinorPatch
    end.

(** [semver.Make] is [Parse]. *)
Definition Make (s : gostring) : result Version semver_error := Parse s.

End semver.

(** ** Helpers of the repository outside the validator's file *)

Module types.

Definition StringArray := list gostring.

(** Modelled from the spec: [types.StringArray.Contains] (package
    [pkg/sdk/types]) is not among the sources.  The spec reads it as set
    membership (a region must be in the region table of the provider, a stage
    in the set production, staging, qa, dev): the item is one of the elements. *)
Definition Contains (s : StringArray) (item : gostring) : bool :=
  existsb (string_eqb item) s.

End types.

(** Modelled from the spec: [Clean] is declared in another file of package
    [cso/v1] that is not among the sources.  The spec says that it
    "collapses redundant separators and trims": runs of ['/'] become one
    separator and no separator is left at either end, so that no segment
    of the result is empty.  That is: the non-empty segments of the path,
    joined again. *)
Definition segments (path : gostring) : list gostring :=
  filter (fun seg => negb (is_empty seg)) (strings.Split path "/"%char).

Definition Clean (path : gostring) : gostring :=
  strings.Join (segments path) "/"%char.

(** ** The validator *)

(** A Go map with string keys, as its list of bindings (the keys of both
    maps below are pairwise different). *)
Fixpoint map_lookup {V} (m : list (gostring * V)) (k : gostring) : option V :=
  match m with
  | [] => None
  | (k', v) :: rest => if string_eqb k k' then Some v else map_lookup rest k
  end.

Definition strs (l : list string) : types.StringArray :=
  map list_ascii_of_string l.

Definition cloudProviderRegions : list (gostring * types.StringArray) :=
  [ ("aws" : gostring,
     strs ["global"; "us-east-1"; "us-east-2"; "us-west-1"; "us-west-2";
           "ap-east-1"; "ap-south-1"; "ap-northeast-3"; "ap-northeast-2";
           "ap-southeast-1"; "ap-southeast-2"; "ap-northeast-1";
           "ca-central-1"; "cn-north-1"; "cn-northwest-1"; "eu-central-1";
           "eu-west-1"; "eu-west-2"; "eu-west-3"; "eu-north-1"; "me-south-1";
           "sa-east-1"]);
    ("aws-us-gov" : gostring,
     strs ["us-gov-east-1"; "us-gov-west-1"]);
    ("gcp" : gostring,
     strs ["global"; "asia-east1"; "asia-east2"; "asia-northeast1";
           "asia-northeast2"; "asia-south1"; "asia-southeast1";
           "australia-southeast1"; "europe-north1"; "europe-west1";
           "europe-west2"; "europe-west3"; "europe-west4"; "europe-west6";
           "northamerica-northeast1"; "southamerica-east1"; "us-central1";
           "us-east1"; "us-east4"; "us-west1"; "us-west2"]);
    ("azure" : gostring,
     strs ["global"; "eastasia"; "southeastasia"; "centralus"; "eastus";
           "eastus2"; "westus"; "northcentralus"; "southcentralus";
           "northeurope"; "westeurope"; "japanwest"; "japaneast";
           "brazilsouth"; "australiaeast"; "australiasoutheast";
           "southindia"; "centralindia"; "westindia"; "canadacentral";
           "canadaeast"; "uksouth"; "ukwest"; "westcentralus"; "westus2";
           "koreacentral"; "koreasouth"; "francecentral"; "francesouth";
           "australiacentral"; "australiacentral2"; "uaecentral"; "uaenorth";
           "southafricanorth"; "southafricawest"; "switzerlandnorth";
           "switzerlandwest"; "germanynorth"; "germanywestcentral";
           "norwaywest"; "norwayeast"; "brazilsoutheast"]);
    ("azure-us-gov" : gostring,
     strs ["usgovvirginia"; "usgoviowa"; "usgovarizona"; "usgovtexas"]) ].

Definition platformQualityLevels : types.StringArray :=
  strs ["production"; "staging"; "qa"; "dev"].

Definition validateSemVer (version : gostring) : option semver_error :=
  let version :=
    strings.TrimPrefix (strings.TrimSpace (strings.ToLower version)) "v"%char in
  match semver.Make version with
  | Err err => Some err
  | Ok _ => None
  end.

Definition validateMeta (parts : list gostring) : exec unit :=
  if len parts <? 2 then Raise ErrMetaPartCount
  else
    p0 <- index parts 0 ;;
    _ <- check (validate_text p0) (ErrMetaPath p0) ;;
    Success.

Definition validateInfra (parts : list gostring) : exec unit :=
  if len parts <? 4 then Raise ErrInfraPartCount
  else
    p0 <- index parts 0 ;;
    match map_lookup cloudProviderRegions p0 with
    | None => Raise (ErrInfraProvider p0)
    | Some r =>
        p1 <- index parts 1 ;;
        _ <- check (validate_text p1) (ErrInfraAccount p1) ;;
        p2 <- index parts 2 ;;
        _ <- require (types.Contains r p2) (ErrInfraRegion p2 p1 p0) ;;
        Success
    end.

Definition validatePlatform (parts : list gostring) : exec unit :=
  if len parts <? 5 then Raise ErrPlatformPartCount
  else
    p0 <- index parts 0 ;;
    _ <- require (types.Contains platformQualityLevels p0) (ErrPlatformLevel p0) ;;
    p1 <- index parts 1 ;;
    _ <- check (validate_text p1) (ErrPlatformName p1) ;;
    r <- index parts 2 ;;
    let regionFound :=
      existsb (fun kv => types.Contains (snd kv) r) cloudProviderRegions in
    _ <- require regionFound (ErrPlatformRegion r) ;;
    p3 <- index parts 3 ;;
    _ <- check (validate_text p3) (ErrPlatformService p1) ;;
    Success.

Definition validateProduct (parts : list gostring) : exec unit :=
  if len parts <? 3 then Raise ErrProductPartCount
  else
    p0 <- index parts 0 ;;
    _ <- check (validate_text p0) (ErrProductName p0) ;;
    p1 <- index parts 1 ;;
    _ <- check (validateSemVer p1) (ErrProductVersion p0 p1) ;;
    Success.

Definition validateApplication (parts : list gostring) : exec unit :=
  if len parts <? 6 then Raise ErrAppPartCount
  else
    p0 <- index parts 0 ;;
    _ <- require (types.Contains platformQualityLevels p0) (ErrAppLevel p0) ;;
    p1 <- index parts 1 ;;
    _ <- check (validate_text p1) (ErrAppPlatformName p1) ;;
    p2 <- index parts 2 ;;
    _ <- check (validate_text p2) (ErrAppProductName p2) ;;
    p3 <- index parts 3 ;;
    _ <- check (validateSemVer p3) (ErrAppVersion p2 p3) ;;
    p4 <- index parts 4 ;;
    _ <- check (validate_text p4) (ErrAppComponent p4 p3 p2) ;;
    Success.

Definition validateArtifact (parts : list gostring) : exec unit :=
  if len parts <? 2 then Raise ErrArtifactPartCount
  else
    p1 <- index parts 1 ;;
    _ <- check (validate_text p1) (ErrArtifactType p1) ;;
    Success.

Definition validator := list gostring -> exec unit.

Definition validators : list (gostring * validator) :=
  [ ("meta" : gostring, validateMeta);
    ("infra" : gostring, validateInfra);
    ("platform" : gostring, validatePlatform);
    ("product" : gostring, validateProduct);
    ("app" : gostring, validateApplication);
    ("artifact" : gostring, validateArtifact) ].

(** [Validate], with the table of ring validators it consults made a
    parameter. *)
Definition ValidateWith (table : list (gostring * validator)) (path : gostring)
  : exec unit :=
  match validate_text path with
  | Some err => Raise (ErrSecretPath err)
  | None =>
      let cleanPath := Clean path in
      let parts := strings.Split cleanPath "/"%char in
      if len parts <? 2 then Raise ErrPathPartCount
      else
        p0 <- index parts 0 ;;
        match map_lookup table p0 with
        | None => Raise (ErrRingValue p0)
        | Some v =>
            rest <- slice_from parts 1 ;;
            v rest
        end
  end.

(** Validate path according to the CSO model. *)
Definition Validate (path : gostring) : exec unit :=
  ValidateWith validators path.

(** The version check as the specification words it, to be compared with
    [validateSemVer]: the version "parses as semantic version
    (case-insensitive, optional leading v)". *)
Definition documentedSemVer (version : gostring) : option semver_error :=
  match semver.Make (strings.TrimPrefix (strings.ToLower version) "v"%char) with
  | Err err => Some err
  | Ok _ => None
  end.

(** The error kinds of the specification. *)
Inductive error_kind := PathSyntaxError | UnknownRingError | RingValidationError.

Definition kind_of (e : error) : error_kind :=
  match e with
  | ErrSecretPath _ | ErrPathPartCount => PathSyntaxError
  | ErrRingValue _ => UnknownRingError
  | _ => RingValidationError
  end.

(** What a caller observes of a run: success, the kind of the error, or a
    panic. *)
Inductive outcome := Valid | Invalid (k : error_kind) | Crashed.

Definition outcome_of (r : exec unit) : outcome :=
  match r with
  | Return _ => Valid
  | Raise e => Invalid (kind_of e)
  | Panic => Crashed
  end.


(** ** unicode/utf8 and unicode/utf16 *)

Module utf8.

Definition between (lo hi : N) (c : ascii) : bool :=
  (lo <=? byte_val c)%N && (byte_val c <=? hi)%N.

Definition cont : ascii -> bool := between 128 191.

(** [utf8.Valid] / [utf8.ValidString]: the text is a sequence of well
    formed UTF-8 encodings (no overlong form, no surrogate, nothing above
    U+10FFFF). *)
Fixpoint Valid (p : list ascii) : bool :=
  match p with
  | [] => true
  | b0 :: r0 =>
      if between 0 127 b0 then Valid r0
      else match r0 with
      | [] => false
      | b1 :: r1 =>
          if between 194 223 b0 then cont b1 && Valid r1
          else match r1 with
          | [] => false
          | b2 :: r2 =>
              if between 224 224 b0 then between 160 191 b1 && cont b2 && Valid r2
              else if between 225 236 b0 then cont b1 && cont b2 && Valid r2
              else if between 237 237 b0 then between 128 159 b1 && cont b2 && Valid r2
              else if between 238 239 b0 then cont b1 && cont b2 && Valid r2
              else match r2 with
              | [] => false
              | b3 :: r3 =>
                  if between 240 240 b0
                  then between 144 191 b1 && cont b2 && cont b3 && Valid r3
                  else if between 241 243 b0
                  then cont b1 && cont b2 && cont b3 && Valid r3
                  else if between 244 244 b0
                  then between 128 143 b1 && cont b2 && cont b3 && Valid r3
                  else false
              end
          end
      end
  end.

Definition ValidString (s : gostring) : bool := Valid s.

Definition byte (n : N) : ascii := ascii_of_N (n mod 256).

(** The UTF-8 encoding of a rune, as the conversion [string(rune)] does
    it: surrogates and values above U+10FFFF become U+FFFD. *)
Definition EncodeRune (r : N) : list ascii :=
  (if r <? 128 then [byte r]
   else if r <? 2048 then [byte (192 + r / 64); byte (128 + r mod 64)]
   else if ((55296 <=? r) && (r <=? 57343)) || (1114111 <? r)
   then [byte 239; byte 191; byte 189]
   else if r <? 65536
   then [byte (224 + r / 4096); byte (128 + (r / 64) mod 64); byte (128 + r mod 64)]
   else [byte (240 + r / 262144); byte (128 + (r / 4096) mod 64);
         byte (128 + (r / 64) mod 64); byte (128 + r mod 64)])%N.

End utf8.

Module utf16.

(** [utf16.Decode]: surrogate pairs are combined, a surrogate alone
    becomes U+FFFD. *)
Fixpoint Decode (s : list N) : list N :=
  match s with
  | [] => []
  | r :: rest =>
      (if (r <? 55296) || (57344 <=? r) then r :: Decode rest
       else
         match rest with
         | r2 :: rest2 =>
             if (r <? 56320) && (56320 <=? r2) && (r2 <? 57344)
             then ((r - 55296) * 1024 + (r2 - 56320) + 65536) :: Decode rest2
             else 65533 :: Decode rest
         | [] => [65533]
         end)%N
  end.

End utf16.

(** ** encoding/asn1 *)

Module asn1.

Definition TagOctetString : N := 4.
Definition TagUTF8String : N := 12.
Definition TagSequence : N := 16.
Definition TagNumericString : N := 18.
Definition TagPrintableString : N := 19.
Definition TagT61String : N := 20.
Definition TagIA5String : N := 22.
Definition TagGeneralString : N := 27.
Definition TagBMPString : N := 30.

Definition ClassUniversal : N := 0.

Record tagAndLength := {
  class : N;
  tag : N;
  length : N;
  isCompound : bool
}.

Definition byte (n : N) : ascii := ascii_of_N (n mod 256).

(** *** Marshalling *)

(** [lengthLength]: the number of bytes of a length; a Go [int] has at
    most eight. *)
Fixpoint lengthLength_loop (fuel : nat) (i : N) : nat :=
  match fuel with
  | 0 => 1
  | S fuel' => if (255 <? i)%N then S (lengthLength_loop fuel' (i / 256)) else 1
  end.

Definition lengthLength (i : N) : nat := lengthLength_loop 7 i.

(** The [n] low-order bytes of [i], most significant first:
    [byte(i >> ((n-1)*8))] for [n] counting down to 1. *)
Fixpoint appendLength_loop (n : nat) (i : N) : list ascii :=
  match n with
  | 0 => []
  | S n' => byte (i / 256 ^ N.of_nat n') :: appendLength_loop n' i
  end.

Definition appendLength (i : N) : list ascii :=
  appendLength_loop (lengthLength i) i.

(** [appendTagAndLength], for the tag numbers below 31 that the
    marshaller produces here. *)
Definition appendTagAndLength (t : tagAndLength) : list ascii :=
  let b := N.lor (N.shiftl (class t) 6)
             (N.lor (if isCompound t then 32 else 0) (tag t)) in
  byte b ::
  (if (128 <=? length t)%N
   then byte (N.lor 128 (N.of_nat (lengthLength (length t)))) :: appendLength (length t)
   else [byte (length t)]).

(** A field: identifier and length octets, then the body. *)
Definition encode (tagNumber : N) (compound : bool) (body : list ascii)
  : list ascii :=
  appendTagAndLength {| class := ClassUniversal; tag := tagNumber;
                        length := N.of_nat (len body);
                        isCompound := compound |} ++ body.

Definition allowAsterisk := true.
Definition rejectAsterisk := false.
Definition allowAmpersand := true.
Definition rejectAmpersand := false.

Definition isPrintable (b : ascii) (asterisk ampersand : bool) : bool :=
  let n := byte_val b in
  ((97 <=? n) && (n <=? 122) ||
   (65 <=? n) && (n <=? 90) ||
   (48 <=? n) && (n <=? 57) ||
   (39 <=? n) && (n <=? 41) ||
   (43 <=? n) && (n <=? 47) ||
   (n =? 32) || (n =? 58) || (n =? 61) || (n =? 63) ||
   (asterisk && (n =? 42)) ||
   (ampersand && (n =? 38)))%N.

(** A Go string without an explicit string type: a PrintableString when
    its characters allow it, a UTF8String when it is valid UTF-8, and an
    error otherwise ("asn1: string not valid UTF-8"). *)
Definition marshalString (s : gostring) : option (list ascii) :=
  if forallb (fun c => (byte_val c <? 128)%N
                       && isPrintable c rejectAsterisk rejectAmpersand) s
  then Some (encode TagPrintableString false s)
  else if utf8.ValidString s then Some (encode TagUTF8String false s)
  else None.

(** A byte slice: an OCTET STRING. *)
Definition marshalBytes (b : list ascii) : list ascii :=
  encode TagOctetString false b.

(** *** Unmarshalling *)

(** The length octets of the long form, [numBytes] of them. *)
Fixpoint parseLength (numBytes : nat) (acc : N) (bytes : list ascii)
  : option (N * list ascii) :=
  match numBytes with
  | 0 => Some (acc, bytes)
  | S n =>
      match bytes with
      | [] => None
      | b :: rest =>
          if (2 ^ 23 <=? acc)%N then None
          else
            let acc' := N.lor (N.shiftl acc 8) (byte_val b) in
            if (acc' =? 0)%N then None
            else parseLength n acc' rest
      end
  end.

(** [parseTagAndLength]: the header of a field and the bytes after it.
    A tag number in the high form (31 and above, spread over several
    bytes) is not decoded: no field of the envelope has such a tag, so
    [parseField] rejects the input whether that tag is well formed or
    not. *)
Definition parseTagAndLength (bytes : list ascii)
  : option (tagAndLength * list ascii) :=
  match bytes with
  | [] => None
  | b :: rest =>
      let n := byte_val b in
      let cls := N.shiftr n 6 in
      let compound := (N.land n 32 =? 32)%N in
      let tg := N.land n 31 in
      if (tg =? 31)%N then None
      else
        match rest with
        | [] => None
        | l :: rest' =>
            let ln := byte_val l in
            if (N.land ln 128 =? 0)%N
            then Some ({| class := cls; tag := tg; length := N.land ln 127;
                          isCompound := compound |}, rest')
            else
              let numBytes := N.land ln 127 in
              if (numBytes =? 0)%N then None
              else
                match parseLength (N.to_nat numBytes) 0 rest' with
                | None => None
                | Some (length, rest'') =>
                    if (length <? 128)%N then None
                    else Some ({| class := cls; tag := tg; length := length;
                                  isCompound := compound |}, rest'')
                end
        end
  end.

(** The body of a field of [length] bytes and what follows it; the
    data is truncated when fewer bytes are left. *)
Definition takeBody (length : N) (bytes : list ascii)
  : option (list ascii * list ascii) :=
  if (N.of_nat (len bytes) <? length)%N then None
  else Some (firstn (N.to_nat length) bytes, skipn (N.to_nat length) bytes).

Definition parsePrintableString (bytes : list ascii) : option gostring :=
  if forallb (fun b => isPrintable b allowAsterisk allowAmpersand) bytes
  then Some bytes else None.

Definition isNumeric (b : ascii) : bool :=
  ((48 <=? byte_val b) && (byte_val b <=? 57) || (byte_val b =? 32))%N.

Definition parseNumericString (bytes : list ascii) : option gostring :=
  if forallb isNumeric bytes then Some bytes else None.

Definition parseIA5String (bytes : list ascii) : option gostring :=
  if forallb (fun b => (byte_val b <? 128)%N) bytes then Some bytes else None.

Definition parseT61String (bytes : list ascii) : option gostring :=
  Some bytes.

Definition parseUTF8String (bytes : list ascii) : option gostring :=
  if utf8.Valid bytes then Some bytes else None.

Fixpoint units (bytes : list ascii) : list N :=
  match bytes with
  | hi :: lo :: rest => (byte_val hi * 256 + byte_val lo)%N :: units rest
  | _ => []
  end.

Definition stripTerminator (bytes : list ascii) : list ascii :=
  match rev bytes with
  | z1 :: z2 :: r =>
      if (byte_val z1 =? 0)%N && (byte_val z2 =? 0)%N then rev r else bytes
  | _ => bytes
  end.

Definition parseBMPString (bmpString : list ascii) : option gostring :=
  if negb (Nat.even (len bmpString)) then None
  else Some (flat_map utf8.EncodeRune
               (utf16.Decode (units (stripTerminator bmpString)))).

(** [parseField] on a field of Go type [string]: all the ASN.1 string
    types are accepted, each with its own check. *)
Definition parseStringField (bytes : list ascii) : option (gostring * list ascii) :=
  match bytes with
  | [] => None
  | _ :: _ =>
      match parseTagAndLength bytes with
      | None => None
      | Some (t, rest) =>
          let universalTag :=
            if (class t =? ClassUniversal)%N &&
               existsb (N.eqb (tag t))
                 [TagIA5String; TagGeneralString; TagT61String;
                  TagUTF8String; TagNumericString; TagBMPString]
            then tag t else TagPrintableString in
          if negb ((class t =? ClassUniversal)%N && (tag t =? universalTag)%N)
             || isCompound t
          then None
          else
            match takeBody (length t) rest with
            | None => None
            | Some (innerBytes, rest') =>
                let parsed :=
                  if (universalTag =? TagPrintableString)%N
                  then parsePrintableString innerBytes
                  else if (universalTag =? TagNumericString)%N
                  then parseNumericString innerBytes
                  else if (universalTag =? TagIA5String)%N
                  then parseIA5String innerBytes
                  else if (universalTag =? TagT61String)%N
                  then parseT61String innerBytes
                  else if (universalTag =? TagUTF8String)%N
                  then parseUTF8String innerBytes
                  else if (universalTag =? TagGeneralString)%N
                  then parseT61String innerBytes
                  else if (universalTag =? TagBMPString)%N
                  then parseBMPString innerBytes
                  else None in
                match parsed with
                | None => None
                | Some v => Some (v, rest')
                end
            end
      end
  end.

(** [parseField] on a field of Go type [[]byte]: an OCTET STRING. *)
Definition parseBytesField (bytes : list ascii) : option (list ascii * list ascii) :=
  match bytes with
  | [] => None
  | _ :: _ =>
      match parseTagAndLength bytes with
      | None => None
      | Some (t, rest) =>
          if negb ((class t =? ClassUniversal)%N && (tag t =? TagOctetString)%N)
             || isCompound t
          then None
          else takeBody (length t) rest
      end
  end.

End asn1.

(** ** The packer *)

(** Modelled from the spec: the type of a secret value is not declared in
    the sources ([Pack] takes any Go value and hands it to [asn1.Marshal]).
    The spec describes it as "a (type-tag, opaque-body) pair": the type tag
    is a string and the body "an arbitrary byte sequence", that is a Go
    struct with a [string] field and a [[]byte] field, which
    [encoding/asn1] writes as a SEQUENCE of a string and an OCTET STRING. *)
Record SecretValue := {
  Type_ : gostring;
  Body : list ascii
}.

Inductive codec_error := UnableToPack | UnableToUnpack.

(** [asn1.Marshal] on a [SecretValue]. *)
Definition Marshal (value : SecretValue) : option (list ascii) :=
  match asn1.marshalString (Type_ value) with
  | None => None
  | Some field0 =>
      Some (asn1.encode asn1.TagSequence true
              (field0 ++ asn1.marshalBytes (Body value)))
  end.

(** [asn1.Unmarshal] into a [*SecretValue]: the value and the bytes left
    after the SEQUENCE.  Bytes of the SEQUENCE after its last field are
    allowed and ignored. *)
Definition Unmarshal (b : list ascii) : option (SecretValue * list ascii) :=
  match b with
  | [] => None
  | _ :: _ =>
      match asn1.parseTagAndLength b with
      | None => None
      | Some (t, after) =>
          if negb ((asn1.class t =? asn1.ClassUniversal)%N
                   && (asn1.tag t =? asn1.TagSequence)%N)
             || negb (asn1.isCompound t)
          then None
          else
            match asn1.takeBody (asn1.length t) after with
            | None => None
            | Some (innerBytes, rest) =>
                match asn1.parseStringField innerBytes with
                | None => None
                | Some (ty, inner1) =>
                    match asn1.parseBytesField inner1 with
                    | None => None
                    | Some (body, _) =>
                        Some ({| Type_ := ty; Body := body |}, rest)
                    end
                end
            end
      end
  end.

(** Pack a secret value. *)
Definition Pack (value : SecretValue) : result (list ascii) codec_error :=
  match Marshal value with
  | None => Err UnableToPack
  | Some payload => Ok payload
  end.

(** Unpack a secret value: what [out] holds after a successful call; the
    bytes [asn1.Unmarshal] leaves are dropped. *)
Definition Unpack (input : list ascii) : result SecretValue codec_error :=
  match Unmarshal input with
  | None => Err UnableToUnpack
  | Some (out, _) => Ok out
  end.

(** The number of bytes of the envelope of a value, that is of its two
    fields as [Marshal] writes them: each has an identifier octet, its
    length octets and its content. *)
Definition header_length (n : N) : nat :=
  if (128 <=? n)%N then 2 + asn1.lengthLength n else 2.

Definition field_length (content : list ascii) : nat :=
  header_length (N.of_nat (len content)) + len content.

Definition envelope_length (v : SecretValue) : N :=
  N.of_nat (field_length (Type_ v) + field_length (Body v)).

(** [parseTagAndLength] does not read a length of 2^31 bytes or more
    ("length too large"): a value is within the limit of the decoder when
    its envelope is shorter than that. *)
Definition within_limit (v : SecretValue) : Prop :=
  (envelope_length v < 2 ^ 31)%N.



(** ** Notions used in the statements and proofs below *)

(** A list of segments each of which passes the check of single
    segments (non-empty, printable ASCII). *)
Definition well_formed (parts : list gostring) : Prop :=
  Forall (fun seg => validate_text seg = None) parts.

(** The three ways a run of [Validate] can go. *)
Inductive validate_view (table : list (gostring * validator)) (p : gostring)
  : exec unit -> Prop :=
| view_raw e :
    validate_text p = Some e ->
    validate_view table p (Raise (ErrSecretPath e))
| view_short :
    validate_text p = None ->
    len (strings.Split (Clean p) "/"%char) < 2 ->
    validate_view table p (Raise ErrPathPartCount)
| view_ring ring rest :
    validate_text p = None ->
    strings.Split (Clean p) "/"%char = ring :: rest ->
    rest <> [] ->
    Forall (fun seg => validate_text seg = None) (ring :: rest) ->
    validate_view table p
      (match map_lookup table ring with
       | None => Raise (ErrRingValue ring)
       | Some v => v rest
       end).

(** Whether a parser of the semantic version library accepts. *)
Definition accepted {A} (r : result A semver_error) : bool :=
  match r with Ok _ => true | Err _ => false end.

(** The three parts of the text after the second dot: patch number,
    prerelease identifiers, build identifiers. *)
Definition patch_fields (p2 : gostring) : gostring * list gostring * list gostring :=
  let '(patchStr, build) :=
    match strings.Cut p2 "+"%char with
    | Some (before, after) => (before, strings.Split after "."%char)
    | None => (p2, [])
    end in
  let '(patchStr, prerelease) :=
    match strings.Cut patchStr "-"%char with
    | Some (before, after) => (before, strings.Split after "."%char)
    | None => (patchStr, [])
    end in
  (patchStr, prerelease, build).

(** Whether [Parse] accepts, as a conjunction of its checks. *)
Definition well_formed_version (s : gostring) : bool :=
  negb (is_empty s) &&
  match strings.SplitN s "."%char 3 with
  | [p0; p1; p2] =>
      accepted (semver.number p0 InvalidCharMajor LeadingZeroesMajor) &&
      accepted (semver.number p1 InvalidCharMinor LeadingZeroesMinor) &&
      (let '(patchStr, prerelease, build) := patch_fields p2 in
       accepted (semver.number patchStr InvalidCharPatch LeadingZeroesPatch) &&
       accepted (semver.prereleases prerelease) &&
       accepted (semver.builds build))
  | _ => false
  end.

(** A text without white space. *)
Definition no_space (s : gostring) : Prop :=
  Forall (fun c => strings.isSpace c = false) s.

(** The identifier octets the marshaller writes for the envelope. *)
Definition asn1_envelope_tags : list (N * bool) :=
  [(asn1.TagSequence, true); (asn1.TagPrintableString, false);
   (asn1.TagUTF8String, false); (asn1.TagOctetString, false)].



(** ** Tables read off the validator *)

(** The keys of [validators]. *)
Definition ring_names : list gostring :=
  strs ["meta"; "infra"; "platform"; "product"; "app"; "artifact"].

(** The number of segments each ring validator asks for after the ring
    selector (its [len(parts) < n] test). *)
Definition minimum_segments : list (gostring * nat) :=
  [ ("meta" : gostring, 2); ("infra" : gostring, 4); ("platform" : gostring, 5);
    ("product" : gostring, 3); ("app" : gostring, 6); ("artifact" : gostring, 2) ].

(** The keys of [cloudProviderRegions]. *)
Definition provider_names : list gostring :=
  strs ["aws"; "aws-us-gov"; "gcp"; "azure"; "azure-us-gov"].

(** * The bundle filter task *)

Module bundle.

(** [bundlev1.Bundle]: the list of packages, which the task rewrites, and
    the other fields, which it does not touch. *)
Record Bundle (Package Fields : Type) := {
  Fields_ : Fields;
  Packages : list Package
}.

Arguments Fields_ {Package Fields} b.
Arguments Packages {Package Fields} b.

(** What [FilterTask.Run] takes from other packages: the packages of a
    bundle and their names, the errors, the container reader and writer,
    the regular expressions of [regexp], the JMESPath expressions and
    their selector.  Nothing is assumed about them.
    - [Compile] is [regexp.Compile]: the expression or the error;
    - [jmespath_Compile] is [jmespath.Compile]: the two values it returns,
      each of which may be nil;
    - [IsSatisfiedBy exp p] is [selector.MatchJMESPath(exp).IsSatisfiedBy(p)],
      [None] when the call panics. *)
Class Externals := {
  Package : Type;
  Name : Package -> gostring;
  Fields : Type;
  GoError : Type;
  Reader : Type;
  Writer : Type;
  FromContainerReader : Reader -> result (Bundle Package Fields) GoError;
  ToContainerWriter : Writer -> Bundle Package Fields -> option GoError;
  Regexp : Type;
  Compile : gostring -> result Regexp GoError;
  MatchString : Regexp -> gostring -> bool;
  Expression : Type;
  jmespath_Compile : gostring -> option Expression * option GoError;
  IsSatisfiedBy : option Expression -> Package -> option bool
}.

Section Task.

Context `{E : Externals}.

(** The task; [ContainerReader] and [OutputWriter] stand for what the two
    providers return when [Run] calls them. *)
Record FilterTask := {
  ContainerReader : result Reader GoError;
  OutputWriter : result Writer GoError;
  KeepPaths : list gostring;
  ExcludePaths : list gostring;
  JMESPath : gostring
}.

(** The errors of [Run], one per [fmt.Errorf], with the error each wraps
    (which may be nil). *)
Inductive run_error :=
| UnableToOpenInput (err : GoError)
| UnableToLoad (err : GoError)
| UnableToCompileKeep (includePath : gostring) (err : option GoError)
| UnableToCompileExclusion (excludePath : gostring) (err : option GoError)
| UnableToCompileJMESPath (expression : gostring) (errJMESPath : option GoError)
| UnableToOpenOutput (err : GoError)
| UnableToDump (err : GoError).

(** How a run ends: it panics, it returns an error before anything is
    handed to [bundle.ToContainerWriter], or it hands the bundle [b] to
    [bundle.ToContainerWriter] and returns what that call gives. *)
Inductive run_outcome :=
| Panics
| Returns (e : run_error)
| Dumps (b : Bundle Package Fields) (e : option run_error).

(** [for _, p := range packages { if want(p) { pkgs = append(pkgs, p) } }] *)
Fixpoint collect (want : Package -> bool) (packages pkgs : list Package)
  : list Package :=
  match packages with
  | [] => pkgs
  | p :: rest => collect want rest (if want p then pkgs ++ [p] else pkgs)
  end.

(** The loop over [t.KeepPaths]; [err] is the variable of that name. *)
Fixpoint keep_loop (paths : list gostring) (packages pkgs : list Package)
  (err : option GoError) : result (list Package) run_error :=
  match paths with
  | [] => Ok pkgs
  | includePath :: rest =>
      match Compile includePath with
      | Err errInclude => Err (UnableToCompileKeep includePath err)
      | Ok includePathRegexp =>
          keep_loop rest packages
            (collect (fun p => MatchString includePathRegexp (Name p))
               packages pkgs) err
      end
  end.

(** The loop over [t.ExcludePaths]. *)
Fixpoint exclude_loop (paths : list gostring) (packages pkgs : list Package)
  (err : option GoError) : result (list Package) run_error :=
  match paths with
  | [] => Ok pkgs
  | excludePath :: rest =>
      match Compile excludePath with
      | Err errExclude => Err (UnableToCompileExclusion excludePath err)
      | Ok excludePathRegexp =>
          exclude_loop rest packages
            (collect (fun p => negb (MatchString excludePathRegexp (Name p)))
               packages pkgs) err
      end
  end.

(** The loop of the JMESPath stage; [None] when the selector panics. *)
Fixpoint select_loop (exp : option Expression) (packages pkgs : list Package)
  : option (list Package) :=
  match packages with
  | [] => Some pkgs
  | p :: rest =>
      match IsSatisfiedBy exp p with
      | None => None
      | Some true => select_loop exp rest (pkgs ++ [p])
      | Some false => select_loop exp rest pkgs
      end
  end.

(** [FilterTask.Run] *)
Definition Run (t : FilterTask) : run_outcome :=
  match ContainerReader t with
  | Err err => Returns (UnableToOpenInput err)
  | Ok reader =>
  match FromContainerReader reader with
  | Err err => Returns (UnableToLoad err)
  | Ok b =>
  (* both calls succeeded: [err] is nil from here to the output writer *)
  let err : option GoError := None in
  match (if 0 <? len (KeepPaths t)
         then keep_loop (KeepPaths t) (Packages b) [] err
         else Ok (Packages b)) with
  | Err e => Returns e
  | Ok kept =>
  match (if 0 <? len (ExcludePaths t)
         then exclude_loop (ExcludePaths t) kept [] err
         else Ok kept) with
  | Err e => Returns e
  | Ok remaining =>
  let selected : result (option (list Package)) run_error :=
    if negb (is_empty (JMESPath t)) then
      let '(exp, errJMESPath) := jmespath_Compile (JMESPath t) in
      match err with
      | Some _ => Err (UnableToCompileJMESPath (JMESPath t) errJMESPath)
      | None => Ok (select_loop exp remaining [])
      end
    else Ok (Some remaining) in
  match selected with
  | Err e => Returns e
  | Ok None => Panics
  | Ok (Some pkgs) =>
  match OutputWriter t with
  | Err err => Returns (UnableToOpenOutput err)
  | Ok writer =>
      let b := {| Fields_ := Fields_ b; Packages := pkgs |} in
      Dumps b (option_map UnableToDump (ToContainerWriter writer b))
  end end end end end end.

End Task.

(** An environment to run examples in: a package is its name, an error is
    a text, a reader holds the packages it yields, the patterns are those
    without metacharacters (which match the names they occur in, and the
    opening parenthesis, which does not compile), and the JMESPath
    selector is satisfied by nothing and panics on a nil expression. *)
Fixpoint hasPrefix (s prefix : gostring) : bool :=
  match prefix, s with
  | [], _ => true
  | c :: prefix', d :: s' => Ascii.eqb c d && hasPrefix s' prefix'
  | _ :: _, [] => false
  end.

Fixpoint occurs (pattern s : gostring) : bool :=
  hasPrefix s pattern ||
  match s with
  | [] => false
  | _ :: s' => occurs pattern s'
  end.

Definition literal_patterns : Externals := {|
  Package := gostring;
  Name := fun p => p;
  Fields := unit;
  GoError := gostring;
  Reader := list gostring;
  Writer := unit;
  FromContainerReader := fun reader => Ok {| Fields_ := tt; Packages := reader |};
  ToContainerWriter := fun _ _ => None;
  Regexp := gostring;
  Compile := fun expr =>
    if existsb (Ascii.eqb "("%char) expr
    then Err ("missing closing )" : gostring) else Ok expr;
  MatchString := occurs;
  Expression := unit;
  jmespath_Compile := fun expression =>
    if existsb (Ascii.eqb "("%char) expression
    then (None, Some ("syntax error" : gostring)) else (Some tt, None);
  IsSatisfiedBy := fun exp _ =>
    match exp with
    | None => None
    | Some _ => Some false
    end
|}.

(** A task in that environment: it reads the given packages and its
    writer opens. *)
Definition literal_task (packages KeepPaths ExcludePaths : list gostring)
  (JMESPath : gostring) : @FilterTask literal_patterns :=
  @Build_FilterTask literal_patterns
    (Ok packages) (Ok tt) KeepPaths ExcludePaths JMESPath.

End bundle.

(** * Properties of the string library *)

Lemma string_eqb_eq (a b : gostring) : string_eqb a b = true <-> a = b.
Proof.
  revert b; induction a as [|x a IH]; intros [|y b]; simpl; split;
    try congruence; try reflexivity.
  - intros H. apply andb_true_iff in H as [Hx Hab].
    apply Ascii.eqb_eq in Hx. apply IH in Hab. congruence.
  - intros H. injection H as -> ->.
    rewrite Ascii.eqb_refl. simpl. now apply IH.
Qed.

Lemma string_eqb_refl (a : gostring) : string_eqb a a = true.
Proof. now apply string_eqb_eq. Qed.

Lemma string_eqb_neq (a b : gostring) : string_eqb a b = false <-> a <> b.
Proof.
  destruct (string_eqb a b) eqn:E.
  - apply string_eqb_eq in E. split; [discriminate | congruence].
  - split; [|reflexivity]. intros _ H. apply string_eqb_eq in H. congruence.
Qed.

Module strings_facts.
Import strings.

Lemma Split_not_nil s sep : Split s sep <> [].
Proof.
  destruct s as [|c t]; simpl; [discriminate|].
  destruct (Ascii.eqb c sep); [discriminate|].
  destruct (Split t sep); discriminate.
Qed.

Lemma Split_no_sep s sep : Forall (fun seg => ~ In sep seg) (Split s sep).
Proof.
  induction s as [|c t IH]; simpl.
  - constructor; [intros []|constructor].
  - destruct (Ascii.eqb c sep) eqn:E.
    + constructor; [intros []|exact IH].
    + destruct (Split t sep) as [|h r] eqn:S; [now apply Split_not_nil in S|].
      inversion IH as [|? ? Hh Hr]; subst.
      constructor; [|exact Hr].
      simpl. intros [->|H]; [now rewrite Ascii.eqb_refl in E | now apply Hh].
Qed.

Lemma Join_Split s sep : Join (Split s sep) sep = s.
Proof.
  induction s as [|c t IH]; simpl; [reflexivity|].
  destruct (Ascii.eqb c sep) eqn:E.
  - apply Ascii.eqb_eq in E. subst c.
    destruct (Split t sep) as [|h r] eqn:S; [now apply Split_not_nil in S|].
    simpl in *. now rewrite IH.
  - destruct (Split t sep) as [|h r] eqn:S; [now apply Split_not_nil in S|].
    destruct r; simpl in *; now rewrite <- IH.
Qed.

Lemma Split_single e sep : ~ In sep e -> Split e sep = [e].
Proof.
  induction e as [|c t IH]; simpl; intros H; [reflexivity|].
  destruct (Ascii.eqb c sep) eqn:E.
  - apply Ascii.eqb_eq in E. tauto.
  - rewrite IH by tauto. reflexivity.
Qed.

Lemma Split_app_sep e t sep :
  ~ In sep e -> Split (e ++ sep :: t) sep = e :: Split t sep.
Proof.
  induction e as [|c e IH]; simpl; intros H.
  - now rewrite Ascii.eqb_refl.
  - destruct (Ascii.eqb c sep) eqn:E.
    + apply Ascii.eqb_eq in E. tauto.
    + rewrite IH by tauto. reflexivity.
Qed.

Lemma Split_Join l sep :
  l <> [] -> Forall (fun seg => ~ In sep seg) l -> Split (Join l sep) sep = l.
Proof.
  induction l as [|e rest IH]; intros Hne Hall; [congruence|].
  inversion Hall as [|? ? He Hrest]; subst.
  destruct rest as [|e2 rest'].
  - simpl. now apply Split_single.
  - change (Join (e :: e2 :: rest') sep) with (e ++ sep :: Join (e2 :: rest') sep).
    rewrite Split_app_sep by assumption.
    rewrite IH; [reflexivity|discriminate|assumption].
Qed.

Lemma In_Join c l sep :
  In c (Join l sep) -> c = sep \/ exists seg, In seg l /\ In c seg.
Proof.
  induction l as [|e rest IH]; simpl; [intros []|].
  destruct rest as [|e2 rest'].
  - intros H. right. exists e. auto.
  - intros H. apply in_app_or in H as [H|[H|H]].
    + right. exists e. auto.
    + left. congruence.
    + destruct (IH H) as [->|(seg & Hs & Hc)]; [now left|].
      right. exists seg. auto.
Qed.

Lemma In_Join_seg c seg l sep : In seg l -> In c seg -> In c (Join l sep).
Proof.
  induction l as [|e rest IH]; simpl; [intros []|].
  intros [->|H] Hc.
  - destruct rest; [assumption|]. apply in_or_app. now left.
  - destruct rest as [|e2 rest']; [destruct H|].
    apply in_or_app. right. right. now apply IH.
Qed.

Lemma In_Split c s sep :
  In c s -> c <> sep -> exists seg, In seg (Split s sep) /\ In c seg.
Proof.
  intros H Hc. rewrite <- (Join_Split s sep) in H.
  apply In_Join in H as [->|H]; [congruence|exact H].
Qed.

Lemma In_Split_seg c seg s sep : In seg (Split s sep) -> In c seg -> In c s.
Proof.
  intros Hs Hc. rewrite <- (Join_Split s sep). eapply In_Join_seg; eauto.
Qed.

End strings_facts.

(** * Normalisation *)

Section CleanFacts.
Import strings strings_facts.

Let slash : ascii := "/"%char.

Lemma segments_no_sep p : Forall (fun seg => ~ In slash seg) (segments p).
Proof.
  unfold segments. apply Forall_forall. intros seg H.
  apply filter_In in H as [H _].
  pose proof (Split_no_sep p slash) as F.
  rewrite Forall_forall in F. now apply F.
Qed.

Lemma segments_nonempty p : Forall (fun seg => seg <> []) (segments p).
Proof.
  unfold segments. apply Forall_forall. intros seg H.
  apply filter_In in H as [_ H]. now destruct seg.
Qed.

Lemma Split_Clean p : segments p <> [] -> Split (Clean p) slash = segments p.
Proof.
  intros H. unfold Clean. apply Split_Join; [exact H|apply segments_no_sep].
Qed.

Lemma Clean_nil p : segments p = [] -> Clean p = [].
Proof. unfold Clean. now intros ->. Qed.

Lemma Clean_not_nil p : segments p <> [] -> Clean p <> [].
Proof.
  intros H. unfold Clean.
  pose proof (segments_nonempty p) as F.
  destruct (segments p) as [|e rest]; [congruence|].
  inversion F; subst.
  destruct e; [congruence|]. destruct rest; discriminate.
Qed.

Lemma segments_Clean p : segments (Clean p) = segments p.
Proof.
  destruct (segments p) as [|e rest] eqn:E.
  - rewrite Clean_nil by assumption. reflexivity.
  - unfold segments at 1. rewrite Split_Clean by congruence.
    rewrite E. rewrite <- E. unfold segments.
    apply forallb_filter_id. apply forallb_forall.
    intros x Hx. apply filter_In in Hx. tauto.
Qed.

Lemma Clean_idempotent p : Clean (Clean p) = Clean p.
Proof. unfold Clean at 1. now rewrite segments_Clean. Qed.

(** The segments the validator splits the cleaned path into. *)
Lemma Split_Clean_cases p :
  (segments p = [] /\ Clean p = [] /\ Split (Clean p) slash = [[]])
  \/ (segments p <> [] /\ Clean p <> [] /\ Split (Clean p) slash = segments p).
Proof.
  destruct (segments p) as [|e rest] eqn:E.
  - left. rewrite Clean_nil by assumption. auto.
  - right. rewrite <- E.
    assert (segments p <> []) by congruence.
    auto using Clean_not_nil, Split_Clean.
Qed.

Lemma In_segments c p : In c p -> c <> slash -> exists seg, In seg (segments p) /\ In c seg.
Proof.
  intros H Hc. destruct (In_Split c p slash H Hc) as (seg & Hs & Hin).
  exists seg. split; [|assumption].
  unfold segments. apply filter_In. split; [assumption|].
  destruct seg; [destruct Hin|reflexivity].
Qed.

Lemma In_Clean c p : In c p -> c <> slash -> In c (Clean p).
Proof.
  intros H Hc. destruct (In_segments _ _ H Hc) as (seg & Hs & Hin).
  unfold Clean. eapply In_Join_seg; eauto.
Qed.

Lemma In_Clean_inv c p : In c (Clean p) -> In c p.
Proof.
  intros H. pose proof H as H0.
  unfold Clean in H0. apply In_Join in H0 as [E|(seg & Hs & Hin)].
  - (* a separator of the result separates two segments of the path *)
    subst c.
    destruct (in_dec ascii_dec slash p) as [i|n]; [exact i|].
    exfalso. revert H. unfold Clean, segments.
    rewrite Split_single by exact n. simpl.
    destruct (negb (is_empty p)); simpl; auto.
  - apply filter_In in Hs as [Hs _].
    eapply In_Split_seg; eauto.
Qed.

End CleanFacts.

(** * The raw path check and the dispatch to a ring validator *)

Lemma validate_text_None x :
  validate_text x = None <-> x <> [] /\ forallb is_.printable x = true.
Proof.
  unfold validate_text, validation.Validate, validation.Required, is_.PrintableASCII.
  destruct x as [|c t]; [simpl; split; [discriminate|tauto]|].
  cbn [is_empty].
  destruct (forallb is_.printable (c :: t)); split; intros H;
    try discriminate; try tauto; try (split; [discriminate|reflexivity]).
  destruct H; discriminate.
Qed.

Lemma validate_text_blank x : validate_text x = Some ErrRequired <-> x = [].
Proof.
  unfold validate_text, validation.Validate, validation.Required, is_.PrintableASCII.
  destruct x as [|c t]; [simpl; tauto|]. cbn [is_empty].
  destruct (forallb is_.printable (c :: t)); split; discriminate.
Qed.

Lemma validate_text_unprintable x :
  validate_text x = Some ErrPrintableASCII <->
  x <> [] /\ forallb is_.printable x = false.
Proof.
  unfold validate_text, validation.Validate, validation.Required, is_.PrintableASCII.
  destruct x as [|c t]; [simpl; split; [discriminate|intros []; congruence]|].
  cbn [is_empty].
  destruct (forallb is_.printable (c :: t)); split; intros H;
    try discriminate; try tauto; try (split; [discriminate|reflexivity]).
  destruct H; discriminate.
Qed.

Lemma forallb_false_In {A} (f : A -> bool) l :
  forallb f l = false <-> exists x, In x l /\ f x = false.
Proof.
  induction l as [|a l IH]; simpl.
  - split; [discriminate|intros (x & [] & _)].
  - rewrite andb_false_iff, IH. split.
    + intros [H|(x & Hx & Hf)]; [exists a; auto|exists x; auto].
    + intros (x & [->|Hx] & Hf); [now left|right; now exists x].
Qed.

Lemma slash_printable : is_.printable "/"%char = true.
Proof. reflexivity. Qed.

Lemma printable_Clean p :
  forallb is_.printable p = true -> forallb is_.printable (Clean p) = true.
Proof.
  rewrite !forallb_forall. intros H c Hc. apply H. now apply In_Clean_inv.
Qed.

Lemma unprintable_Clean p :
  forallb is_.printable p = false ->
  Clean p <> [] /\ forallb is_.printable (Clean p) = false.
Proof.
  intros H. apply forallb_false_In in H as (c & Hc & Hf).
  assert (In c (Clean p)) as Hin.
  { apply In_Clean; [assumption|]. intros ->. now rewrite slash_printable in Hf. }
  split.
  - intros E. rewrite E in Hin. destruct Hin.
  - apply forallb_false_In. now exists c.
Qed.

(** Every segment of a printable path is a non-empty printable text: it
    passes the check the ring validators apply to single segments. *)
Lemma segments_valid p :
  forallb is_.printable p = true ->
  Forall (fun seg => validate_text seg = None) (segments p).
Proof.
  intros H. apply Forall_forall. intros seg Hs.
  apply validate_text_None. split.
  - pose proof (segments_nonempty p) as F.
    rewrite Forall_forall in F. now apply F.
  - rewrite forallb_forall in *. intros c Hc. apply H.
    unfold segments in Hs. apply filter_In in Hs as [Hs _].
    eapply strings_facts.In_Split_seg; eauto.
Qed.

Lemma ValidateWith_view table p : validate_view table p (ValidateWith table p).
Proof.
  unfold ValidateWith.
  destruct (validate_text p) as [e|] eqn:V; [now constructor|].
  destruct (len (strings.Split (Clean p) "/"%char) <? 2) eqn:L.
  - apply Nat.ltb_lt in L. now constructor.
  - apply Nat.ltb_ge in L.
    apply validate_text_None in V as V'. destruct V' as [_ Hp].
    destruct (Split_Clean_cases p) as [(_ & _ & S)|(_ & _ & S)].
    { rewrite S in L. simpl in L. lia. }
    pose proof (segments_valid p Hp) as F. rewrite <- S in F.
    destruct (strings.Split (Clean p) "/"%char) as [|ring [|r2 rest]] eqn:E;
      simpl in L; try lia.
    cbn [index nth_error bind].
    replace (match map_lookup table ring with
             | Some v => rest0 <- slice_from (ring :: r2 :: rest) 1;; v rest0
             | None => Raise (ErrRingValue ring)
             end)
      with (match map_lookup table ring with
            | None => Raise (ErrRingValue ring)
            | Some v => v (r2 :: rest)
            end)
      by (destruct (map_lookup table ring); reflexivity).
    apply view_ring; auto. discriminate.
Qed.

Lemma Validate_view p : validate_view validators p (Validate p).
Proof. apply ValidateWith_view. Qed.

(** A path whose cleaned form starts with a known ring is handed to that
    ring's validator, unless the raw check rejects it first. *)
Lemma Validate_dispatch p ring rest v :
  strings.Split (Clean p) "/"%char = ring :: rest ->
  map_lookup validators ring = Some v ->
  (exists e, validate_text p = Some e /\ Validate p = Raise (ErrSecretPath e))
  \/ (validate_text p = None /\ rest = [] /\ Validate p = Raise ErrPathPartCount)
  \/ (validate_text p = None /\ rest <> [] /\
      Forall (fun seg => validate_text seg = None) rest /\
      Validate p = v rest).
Proof.
  intros S L. destruct (Validate_view p) as [e V|V Hl|ring' rest' V S' Hr F].
  - left. eauto.
  - right. left. rewrite S in Hl. destruct rest; [auto|simpl in Hl; lia].
  - right. right. rewrite S in S'. injection S' as <- <-.
    rewrite L. inversion F; subst. auto.
Qed.

(** * Malformed paths *)

(** C4. [Validate] returns an error, and does not panic, when the raw path
    is empty, when it contains a character outside printable ASCII, or when
    the cleaned path has fewer than two segments; the error is of the
    path-syntax kind and is the same whatever the table of ring validators
    holds: it is returned before any of them is consulted. *)
Theorem Validate_rejects_malformed_path (p : gostring) :
  p = [] \/
  (exists c, In c p /\ is_.printable c = false) \/
  len (strings.Split (Clean p) "/"%char) < 2 ->
  exists e,
    kind_of e = PathSyntaxError /\
    Validate p = Raise e /\
    forall table, ValidateWith table p = Raise e.
Proof.
  intros H.
  assert (exists e, kind_of e = PathSyntaxError /\
                    forall table, ValidateWith table p = Raise e)
    as (e & K & T).
  { destruct (validate_text p) as [r|] eqn:V.
    - exists (ErrSecretPath r). split; [reflexivity|].
      intros table. unfold ValidateWith. now rewrite V.
    - exists ErrPathPartCount. split; [reflexivity|].
      intros table.
      destruct (ValidateWith_view table p) as [e V'|V' Hl|ring rest V' S Hr F];
        [congruence|reflexivity|].
      exfalso. destruct H as [E|[(c & Hc & Hf)|Hl]].
      + subst p. discriminate V.
      + apply validate_text_None in V as [_ V].
        rewrite forallb_forall in V. rewrite (V c Hc) in Hf. discriminate.
      + rewrite S in Hl. destruct rest; [congruence|simpl in Hl; lia]. }
  exists e. split; [exact K|]. split; [apply T|exact T].
Qed.

Lemma Validate_rejects_malformed_path_witness :
  exists e,
    kind_of e = PathSyntaxError /\
    Validate "meta" = Raise e /\
    forall table, ValidateWith table "meta" = Raise e.
Proof.
  apply (Validate_rejects_malformed_path "meta").
  right. right. vm_compute. lia.
Defined.

(** * Absence of panics *)

Ltac run_checks :=
  cbn [len List.length Nat.ltb Nat.leb index nth_error bind];
  unfold check, require;
  repeat match goal with
         | |- context [match ?x with _ => _ end] => destruct x; cbn [bind]
         end.

Ltac no_panic :=
  let parts := fresh "parts" in
  intros parts;
  match goal with |- ?f parts <> Panic => unfold f end;
  do 6 (destruct parts as [|? parts]; [run_checks; discriminate|]);
  run_checks; discriminate.

Lemma validateMeta_no_panic : forall parts, validateMeta parts <> Panic.
Proof. no_panic. Qed.

Lemma validateInfra_no_panic : forall parts, validateInfra parts <> Panic.
Proof. no_panic. Qed.

Lemma validatePlatform_no_panic : forall parts, validatePlatform parts <> Panic.
Proof. no_panic. Qed.

Lemma validateProduct_no_panic : forall parts, validateProduct parts <> Panic.
Proof. no_panic. Qed.

Lemma validateApplication_no_panic : forall parts, validateApplication parts <> Panic.
Proof. no_panic. Qed.

Lemma validateArtifact_no_panic : forall parts, validateArtifact parts <> Panic.
Proof. no_panic. Qed.

Lemma validators_lookup ring v :
  map_lookup validators ring = Some v ->
  (ring = "meta" /\ v = validateMeta) \/
  (ring = "infra" /\ v = validateInfra) \/
  (ring = "platform" /\ v = validatePlatform) \/
  (ring = "product" /\ v = validateProduct) \/
  (ring = "app" /\ v = validateApplication) \/
  (ring = "artifact" /\ v = validateArtifact).
Proof.
  unfold validators. cbn [map_lookup].
  repeat match goal with
         | |- context [string_eqb ring ?k] =>
             let E := fresh "E" in
             destruct (string_eqb ring k) eqn:E;
             [apply string_eqb_eq in E; intros [= <-]; tauto|]
         end.
  discriminate.
Qed.

Lemma Validate_outcome p : Validate p = Success \/ exists e, Validate p = Raise e.
Proof.
  assert (Validate p <> Panic) as N.
  { destruct (Validate_view p) as [e V|V Hl|ring rest V S Hr F]; try discriminate.
    destruct (map_lookup validators ring) as [v|] eqn:L; [|discriminate].
    apply validators_lookup in L.
    destruct L as [[_ ->]|[[_ ->]|[[_ ->]|[[_ ->]|[[_ ->]|[_ ->]]]]]];
      auto using validateMeta_no_panic, validateInfra_no_panic,
        validatePlatform_no_panic, validateProduct_no_panic,
        validateApplication_no_panic, validateArtifact_no_panic. }
  destruct (Validate p) as [[]| e |]; [now left|right; eauto|congruence].
Qed.

(** C8. [Validate] is a total function that never panics: it returns
    success or an error on every input, and so does each of the six ring
    validators on every list of segments, because each one tests the
    number of segments before it reads one of them. *)
Theorem Validate_never_panics :
  (forall p, Validate p = Success \/ exists e, Validate p = Raise e) /\
  (forall parts, validateMeta parts <> Panic) /\
  (forall parts, validateInfra parts <> Panic) /\
  (forall parts, validatePlatform parts <> Panic) /\
  (forall parts, validateProduct parts <> Panic) /\
  (forall parts, validateApplication parts <> Panic) /\
  (forall parts, validateArtifact parts <> Panic).
Proof.
  auto 10 using Validate_outcome, validateMeta_no_panic, validateInfra_no_panic,
    validatePlatform_no_panic, validateProduct_no_panic,
    validateApplication_no_panic, validateArtifact_no_panic.
Qed.

(** * Normalisation and validation *)

Lemma Validate_Clean_exact p :
  Clean p <> [] -> validate_text p = None -> Validate (Clean p) = Validate p.
Proof.
  intros Hc V. unfold Validate, ValidateWith.
  rewrite Clean_idempotent, V.
  assert (validate_text (Clean p) = None) as ->; [|reflexivity].
  apply validate_text_None. split; [assumption|].
  apply printable_Clean. now apply validate_text_None in V.
Qed.

(** C2. Cleaning is idempotent, and validating a cleaned path has the
    same outcome (success, or the kind of the error) as validating the
    path itself.  The two runs even return the same value, except on a
    path made of separators only, where the raw path is refused for its
    number of segments and the cleaned one, being empty, for being blank:
    two errors of the path-syntax kind. *)
Theorem Validate_Clean_invariant (p : gostring) :
  Clean (Clean p) = Clean p /\
  outcome_of (Validate (Clean p)) = outcome_of (Validate p) /\
  (Validate (Clean p) = Validate p \/
   (Validate p = Raise ErrPathPartCount /\
    Validate (Clean p) = Raise (ErrSecretPath ErrRequired))).
Proof.
  split; [apply Clean_idempotent|].
  assert (Validate (Clean p) = Validate p \/
          (Validate p = Raise ErrPathPartCount /\
           Validate (Clean p) = Raise (ErrSecretPath ErrRequired))) as H.
  { destruct (validate_text p) as [[]|] eqn:V.
    - apply validate_text_blank in V. subst p. now left.
    - left. apply validate_text_unprintable in V as V'. destruct V' as [_ Hf].
      apply unprintable_Clean in Hf as [Hne Hf].
      unfold Validate, ValidateWith. rewrite V.
      assert (validate_text (Clean p) = Some ErrPrintableASCII) as ->
        by now apply validate_text_unprintable.
      reflexivity.
    - destruct (Split_Clean_cases p) as [(_ & E & S)|(_ & Hne & _)].
      + right. rewrite E. unfold Validate, ValidateWith at 1. rewrite V, E.
        split; reflexivity.
      + left. now apply Validate_Clean_exact. }
  split; [|exact H].
  destruct H as [->|[-> ->]]; reflexivity.
Qed.

(** * The ring validators on the segments of a validated path *)

(** The two tables are maps: no key occurs twice. *)
Lemma cloudProviderRegions_keys : NoDup (map fst cloudProviderRegions).
Proof.
  repeat constructor; simpl; intuition discriminate.
Qed.

Lemma validators_keys : NoDup (map fst validators).
Proof.
  repeat constructor; simpl; intuition discriminate.
Qed.

Lemma Contains_In (l : types.StringArray) (x : gostring) :
  types.Contains l x = true <-> In x l.
Proof.
  unfold types.Contains. rewrite existsb_exists. split.
  - intros (y & Hy & E). apply string_eqb_eq in E. now subst.
  - intros H. exists x. split; [assumption|apply string_eqb_refl].
Qed.


Lemma well_formed_cons seg parts :
  well_formed (seg :: parts) -> validate_text seg = None /\ well_formed parts.
Proof. intros H. inversion H; subst. auto. Qed.

Ltac use_well_formed :=
  repeat match goal with
         | H : well_formed (_ :: _) |- _ =>
             let V := fresh "V" in
             apply well_formed_cons in H as [V H]; try rewrite V in *
         end.

Lemma Validate_ring p ring rest v :
  validate_text p = None ->
  strings.Split (Clean p) "/"%char = ring :: rest ->
  map_lookup validators ring = Some v ->
  (rest = [] /\ Validate p = Raise ErrPathPartCount) \/
  (rest <> [] /\ well_formed rest /\ Validate p = v rest).
Proof.
  intros V S L.
  destruct (Validate_dispatch p ring rest v S L) as [(e & V' & _)|[(_ & H)|(_ & H)]];
    [congruence|now left|now right].
Qed.

Ltac split_checks :=
  cbn [len List.length Nat.ltb Nat.leb index nth_error bind];
  unfold check, require;
  repeat (match goal with
          | |- context [types.Contains ?l ?x] => destruct (types.Contains l x)
          | |- context [existsb ?f ?l] => destruct (existsb f l)
          | |- context [validate_text ?x] => destruct (validate_text x)
          | |- context [validateSemVer ?x] => destruct (validateSemVer x)
          | |- context [map_lookup ?m ?x] => destruct (map_lookup m x)
          end; cbn [bind negb]);
  try reflexivity.

Lemma validateArtifact_wf rest :
  well_formed rest ->
  validateArtifact rest =
  if len rest <? 2 then Raise ErrArtifactPartCount else Success.
Proof.
  intros W. unfold validateArtifact.
  destruct rest as [|ty [|id tail]]; try reflexivity.
  cbn [len List.length Nat.ltb Nat.leb index nth_error bind].
  use_well_formed. reflexivity.
Qed.

Lemma validateProduct_wf name version key tail :
  well_formed (name :: version :: key :: tail) ->
  validateProduct (name :: version :: key :: tail) =
  match validateSemVer version with
  | Some e => Raise (ErrProductVersion name version e)
  | None => Success
  end.
Proof.
  intros W. unfold validateProduct.
  cbn [len List.length Nat.ltb Nat.leb index nth_error bind].
  use_well_formed. cbn [check bind].
  destruct (validateSemVer version); reflexivity.
Qed.

Lemma validateProduct_short rest :
  len rest < 3 -> validateProduct rest = Raise ErrProductPartCount.
Proof.
  intros H. unfold validateProduct.
  apply Nat.ltb_lt in H. now rewrite H.
Qed.


(** The checks of [validateApplication], in the order it makes them. *)
Lemma validateApplication_steps stage platform product version component key tail :
  validateApplication (stage :: platform :: product :: version :: component :: key :: tail) =
  if negb (types.Contains platformQualityLevels stage) then Raise (ErrAppLevel stage)
  else match validate_text platform with
  | Some e => Raise (ErrAppPlatformName platform e)
  | None =>
  match validate_text product with
  | Some e => Raise (ErrAppProductName product e)
  | None =>
  match validateSemVer version with
  | Some e => Raise (ErrAppVersion product version e)
  | None =>
  match validate_text component with
  | Some e => Raise (ErrAppComponent component version product e)
  | None => Success
  end end end end.
Proof.
  unfold validateApplication. split_checks.
Qed.

Lemma validateInfra_short rest :
  len rest < 4 -> validateInfra rest = Raise ErrInfraPartCount.
Proof.
  intros H. unfold validateInfra.
  apply Nat.ltb_lt in H. now rewrite H.
Qed.

Lemma validateInfra_steps provider account region service tail :
  validateInfra (provider :: account :: region :: service :: tail) =
  match map_lookup cloudProviderRegions provider with
  | None => Raise (ErrInfraProvider provider)
  | Some r =>
      match validate_text account with
      | Some e => Raise (ErrInfraAccount account e)
      | None =>
          if types.Contains r region then Success
          else Raise (ErrInfraRegion region account provider)
      end
  end.
Proof.
  unfold validateInfra. split_checks.
Qed.

Lemma validatePlatform_short rest :
  len rest < 5 -> validatePlatform rest = Raise ErrPlatformPartCount.
Proof.
  intros H. unfold validatePlatform.
  apply Nat.ltb_lt in H. now rewrite H.
Qed.

Lemma validatePlatform_steps stage name region service key tail :
  validatePlatform (stage :: name :: region :: service :: key :: tail) =
  if negb (types.Contains platformQualityLevels stage) then Raise (ErrPlatformLevel stage)
  else match validate_text name with
  | Some e => Raise (ErrPlatformName name e)
  | None =>
      if negb (existsb (fun kv => types.Contains (snd kv) region) cloudProviderRegions)
      then Raise (ErrPlatformRegion region)
      else match validate_text service with
           | Some e => Raise (ErrPlatformService name e)
           | None => Success
           end
  end.
Proof.
  unfold validatePlatform. split_checks.
Qed.

Lemma validators_artifact : map_lookup validators "artifact" = Some validateArtifact.
Proof. reflexivity. Qed.

Lemma validators_product : map_lookup validators "product" = Some validateProduct.
Proof. reflexivity. Qed.


Lemma validators_infra : map_lookup validators "infra" = Some validateInfra.
Proof. reflexivity. Qed.

Lemma validators_platform : map_lookup validators "platform" = Some validatePlatform.
Proof. reflexivity. Qed.

Lemma valid_nonempty seg : validate_text seg = None -> seg <> [].
Proof. intros H. now apply validate_text_None in H. Qed.

Lemma valid_printable seg :
  validate_text seg = None -> forallb is_.printable seg = true.
Proof. intros H. now apply validate_text_None in H. Qed.

Lemma Validate_success p ring rest v :
  strings.Split (Clean p) "/"%char = ring :: rest ->
  map_lookup validators ring = Some v ->
  (Validate p = Success <->
   validate_text p = None /\ rest <> [] /\ v rest = Success).
Proof.
  intros S L.
  destruct (Validate_dispatch p ring rest v S L)
    as [(e & V & R)|[(V & E & R)|(V & Hne & W & R)]]; rewrite R.
  - split; [discriminate|]. intros (V' & _). congruence.
  - split; [discriminate|]. intros (_ & Hne & _). congruence.
  - split; [auto|]. now intros (_ & _ & H).
Qed.

Lemma ring_well_formed p ring rest :
  validate_text p = None ->
  strings.Split (Clean p) "/"%char = ring :: rest ->
  well_formed rest.
Proof.
  intros V S. apply validate_text_None in V as [_ Hp].
  destruct (Split_Clean_cases p) as [(_ & _ & S')|(_ & _ & S')];
    rewrite S' in S.
  - injection S as _ <-. constructor.
  - pose proof (segments_valid p Hp) as F. rewrite S in F.
    now inversion F.
Qed.

Lemma Validate_fails p : Validate p <> Success -> exists e, Validate p = Raise e.
Proof. intros H. destruct (Validate_outcome p); [contradiction|assumption]. Qed.

(** * Artifact ring *)

(** C5. On a path of the artifact ring, [Validate] succeeds exactly when
    the path passes the raw check and at least two segments follow the ring
    selector; whenever it succeeds, the first of these segments, the
    artifact type, is a non-empty printable ASCII text; with fewer than
    two segments after the selector it returns an error. *)
Theorem Validate_artifact (p : gostring) (rest : list gostring) :
  strings.Split (Clean p) "/"%char = ("artifact" : gostring) :: rest ->
  (Validate p = Success <-> validate_text p = None /\ 2 <= len rest) /\
  (Validate p = Success ->
   exists ty id tail,
     rest = ty :: id :: tail /\ ty <> [] /\ forallb is_.printable ty = true) /\
  (len rest < 2 -> exists e, Validate p = Raise e).
Proof.
  intros S.
  pose proof (Validate_success p _ rest validateArtifact S validators_artifact) as Iff.
  assert (Validate p = Success <-> validate_text p = None /\ 2 <= len rest) as Count.
  { rewrite Iff. split.
    - intros (V & Hne & R). split; [exact V|].
      rewrite (validateArtifact_wf rest (ring_well_formed p _ rest V S)) in R.
      destruct (len rest <? 2) eqn:C; [discriminate|]. now apply Nat.ltb_ge in C.
    - intros (V & C). split; [exact V|]. split; [now destruct rest|].
      rewrite (validateArtifact_wf rest (ring_well_formed p _ rest V S)).
      apply Nat.ltb_ge in C. now rewrite C. }
  split; [exact Count|]. split.
  - intros R. apply Count in R as [V C].
    pose proof (ring_well_formed p _ rest V S) as W.
    destruct rest as [|ty [|id tail]]; try (simpl in C; lia).
    apply well_formed_cons in W as [Vt _].
    exists ty, id, tail. auto using valid_nonempty, valid_printable.
  - intros C. apply Validate_fails. rewrite Count. lia.
Qed.

Lemma Validate_artifact_witness :
  Validate "artifact/docker/sha256:abcd/attestation" = Success.
Proof.
  refine (proj2 (proj1 (Validate_artifact "artifact/docker/sha256:abcd/attestation"
            (strs ["docker"; "sha256:abcd"; "attestation"]) _)) _).
  - vm_compute. reflexivity.
  - split; [vm_compute; reflexivity|vm_compute; lia].
Defined.

(** * Product ring *)

(** C6, as the code has it. On a path of the product ring, [Validate]
    succeeds exactly when the path passes the raw check, at least three
    segments follow the ring selector, the product name is not empty, and
    the version, once put in lower case, stripped of surrounding white
    space and of one leading "v", parses as a semantic version.  With
    fewer than three segments it returns an error.
    [product/payments/v2.3.1/key] validates and
    [product/payments/not-a-version/key] fails with the error of the
    semantic version parser. *)
Theorem Validate_product (p : gostring) (rest : list gostring) :
  strings.Split (Clean p) "/"%char = ("product" : gostring) :: rest ->
  (Validate p = Success <->
   validate_text p = None /\
   exists name version key tail,
     rest = name :: version :: key :: tail /\ name <> [] /\
     exists v,
       semver.Make
         (strings.TrimPrefix (strings.TrimSpace (strings.ToLower version)) "v"%char)
       = Ok v) /\
  (len rest < 3 -> exists e, Validate p = Raise e) /\
  Validate "product/payments/v2.3.1/key" = Success /\
  Validate "product/payments/not-a-version/key" =
    Raise (ErrProductVersion "payments" "not-a-version" NoMajorMinorPatch).
Proof.
  intros S.
  pose proof (Validate_success p _ rest validateProduct S validators_product) as Iff.
  split; [|split; [|split; vm_compute; reflexivity]].
  - rewrite Iff. split.
    + intros (V & Hne & R). split; [exact V|].
      pose proof (ring_well_formed p _ rest V S) as W.
      destruct rest as [|name [|version [|key tail]]];
        try (rewrite validateProduct_short in R by (simpl; lia); discriminate).
      rewrite (validateProduct_wf name version key tail W) in R.
      apply well_formed_cons in W as [Vn _].
      unfold validateSemVer in R.
      destruct (semver.Make _) as [v|e] eqn:M; [|discriminate].
      exists name, version, key, tail.
      repeat split; [now apply valid_nonempty|]. now exists v.
    + intros (V & name & version & key & tail & -> & _ & v & M).
      split; [exact V|]. split; [discriminate|].
      rewrite (validateProduct_wf name version key tail
                 (ring_well_formed p _ _ V S)).
      unfold validateSemVer. now rewrite M.
  - intros C. apply Validate_fails. rewrite Iff. intros (_ & _ & R).
    rewrite validateProduct_short in R by assumption. discriminate.
Qed.

Lemma Validate_product_witness :
  Validate "product/payments/V2.3.1-rc.1+build.5/key" = Success.
Proof.
  refine (proj2 (proj1 (Validate_product "product/payments/V2.3.1-rc.1+build.5/key"
           (strs ["payments"; "V2.3.1-rc.1+build.5"; "key"]) _)) _).
  - vm_compute. reflexivity.
  - split; [vm_compute; reflexivity|].
    exists ("payments" : gostring), ("V2.3.1-rc.1+build.5" : gostring),
      ("key" : gostring), [].
    split; [vm_compute; reflexivity|].
    split; [discriminate|].
    vm_compute. eexists. reflexivity.
Defined.

(** C6, as worded, fails: the path [product/payments/ 1.0.0 /key] is
    accepted although its version segment, with its surrounding spaces,
    is no semantic version even when case and a leading "v" are
    disregarded. *)
Lemma Validate_product_version_counterexample :
  ~ (forall p name version tail,
       strings.Split (Clean p) "/"%char
         = ("product" : gostring) :: name :: version :: tail ->
       Validate p = Success ->
       documentedSemVer version = None).
Proof.
  intros H.
  specialize (H "product/payments/ 1.0.0 /key" "payments" " 1.0.0 " [("key" : gostring)]).
  vm_compute in H. specialize (H eq_refl eq_refl). discriminate H.
Qed.

(** * Application ring *)



(** * Infrastructure and platform rings: region membership *)

Lemma region_found (r : gostring) :
  existsb (fun kv => types.Contains (snd kv) r) cloudProviderRegions = true <->
  exists provider regions,
    In (provider, regions) cloudProviderRegions /\ In r regions.
Proof.
  rewrite existsb_exists. split.
  - intros ([provider regions] & H & C). apply Contains_In in C. eauto.
  - intros (provider & regions & H & C).
    exists (provider, regions). split; [assumption|]. now apply Contains_In.
Qed.

(** C1. Region membership differs between the two rings.  On an
    infrastructure path [Validate] succeeds exactly when the path passes
    the raw check, has its four segments after the ring selector, names a
    known provider in the provider segment and has its region segment in
    the region list of that very provider.  On a platform path it succeeds
    exactly when the path passes the raw check, has its five segments, a
    known quality level as stage, and a region segment that is in the
    region list of some provider, whichever.
    So [platform/production/checkout/us-east-1/api/token] validates and
    [platform/production/checkout/nowhere/api/token] fails, and a region
    of another provider is refused on an infrastructure path and accepted
    on a platform path. *)
Theorem region_membership_asymmetry :
  (forall p rest,
     strings.Split (Clean p) "/"%char = ("infra" : gostring) :: rest ->
     (Validate p = Success <->
      validate_text p = None /\
      exists provider account region service tail regions,
        rest = provider :: account :: region :: service :: tail /\
        map_lookup cloudProviderRegions provider = Some regions /\
        In region regions)) /\
  (forall p rest,
     strings.Split (Clean p) "/"%char = ("platform" : gostring) :: rest ->
     (Validate p = Success <->
      validate_text p = None /\
      exists stage name region service key tail provider regions,
        rest = stage :: name :: region :: service :: key :: tail /\
        In stage platformQualityLevels /\
        In (provider, regions) cloudProviderRegions /\ In region regions)) /\
  Validate "platform/production/checkout/us-east-1/api/token" = Success /\
  Validate "platform/production/checkout/nowhere/api/token" =
    Raise (ErrPlatformRegion "nowhere") /\
  Validate "infra/aws/acme-prod/us-gov-east-1/billing/db-password" =
    Raise (ErrInfraRegion "us-gov-east-1" "acme-prod" "aws") /\
  Validate "platform/production/checkout/us-gov-east-1/api/token" = Success.
Proof.
  split; [|split; [|repeat split; vm_compute; reflexivity]].
  - intros p rest S.
    rewrite (Validate_success p _ rest validateInfra S validators_infra).
    split.
    + intros (V & Hne & R). split; [exact V|].
      pose proof (ring_well_formed p _ rest V S) as W.
      destruct rest as [|provider [|account [|region [|service tail]]]];
        try (rewrite validateInfra_short in R by (simpl; lia); discriminate).
      rewrite validateInfra_steps in R.
      use_well_formed.
      destruct (map_lookup cloudProviderRegions provider) as [r|] eqn:L;
        [|discriminate].
      destruct (types.Contains r region) eqn:C; [|discriminate].
      exists provider, account, region, service, tail, r.
      split; [reflexivity|]. split; [exact L|now apply Contains_In].
    + intros (V & provider & account & region & service & tail & regions
              & -> & L & I).
      split; [exact V|]. split; [discriminate|].
      pose proof (ring_well_formed p _ _ V S) as W.
      rewrite validateInfra_steps. use_well_formed.
      apply Contains_In in I. now rewrite L, I.
  - intros p rest S.
    rewrite (Validate_success p _ rest validatePlatform S validators_platform).
    split.
    + intros (V & Hne & R). split; [exact V|].
      pose proof (ring_well_formed p _ rest V S) as W.
      destruct rest as [|stage [|name [|region [|service [|key tail]]]]];
        try (rewrite validatePlatform_short in R by (simpl; lia); discriminate).
      rewrite validatePlatform_steps in R.
      use_well_formed.
      destruct (types.Contains platformQualityLevels stage) eqn:C;
        cbn [negb] in R; [|discriminate].
      destruct (existsb _ cloudProviderRegions) eqn:F;
        cbn [negb] in R; [|discriminate].
      apply region_found in F as (provider & regions & Hp & Hr).
      apply Contains_In in C.
      exists stage, name, region, service, key, tail, provider, regions. auto.
    + intros (V & stage & name & region & service & key & tail & provider & regions
              & -> & Q & Hp & Hr).
      split; [exact V|]. split; [discriminate|].
      pose proof (ring_well_formed p _ _ V S) as W.
      rewrite validatePlatform_steps. use_well_formed.
      apply Contains_In in Q. rewrite Q. cbn [negb].
      assert (existsb (fun kv => types.Contains (snd kv) region)
                cloudProviderRegions = true) as ->
        by (apply region_found; eauto).
      reflexivity.
Qed.

Lemma region_membership_asymmetry_witness :
  Validate "infra/gcp/acme-prod/europe-west1/billing/db-password" = Success.
Proof.
  refine (proj2 (proj1 region_membership_asymmetry
            "infra/gcp/acme-prod/europe-west1/billing/db-password"
            (strs ["gcp"; "acme-prod"; "europe-west1"; "billing"; "db-password"])
            _) _).
  - vm_compute. reflexivity.
  - split; [vm_compute; reflexivity|].
    exists ("gcp" : gostring), ("acme-prod" : gostring), ("europe-west1" : gostring),
      ("billing" : gostring), [("db-password" : gostring)].
    eexists. split; [vm_compute; reflexivity|].
    split; [vm_compute; reflexivity|].
    vm_compute. do 9 right. left. reflexivity.
Defined.

(** * Semantic versions: lower case and white space *)

Module semver_facts.
Import strings semver.

Ltac each_char c :=
  destruct c as [[] [] [] [] [] [] [] []]; vm_compute;
  try reflexivity; try discriminate; try tauto.

Lemma lower_dot c : Ascii.eqb (lower c) "."%char = Ascii.eqb c "."%char.
Proof. each_char c. Qed.

Lemma lower_plus c : Ascii.eqb (lower c) "+"%char = Ascii.eqb c "+"%char.
Proof. each_char c. Qed.

Lemma lower_minus c : Ascii.eqb (lower c) "-"%char = Ascii.eqb c "-"%char.
Proof. each_char c. Qed.

Lemma lower_number c :
  existsb (Ascii.eqb (lower c)) numbers = existsb (Ascii.eqb c) numbers.
Proof. each_char c. Qed.

Lemma lower_alphanum c :
  existsb (Ascii.eqb (lower c)) alphanum = existsb (Ascii.eqb c) alphanum.
Proof. each_char c. Qed.

Lemma lower_of_number c :
  existsb (Ascii.eqb c) numbers = true -> lower c = c.
Proof. each_char c. Qed.

Lemma lower_space c : isSpace c = true -> lower c = c.
Proof. each_char c. Qed.

Lemma alphanum_not_space c :
  existsb (Ascii.eqb c) alphanum = true -> isSpace c = false.
Proof. each_char c. Qed.

Lemma number_is_alphanum c :
  existsb (Ascii.eqb c) numbers = true -> existsb (Ascii.eqb c) alphanum = true.
Proof. each_char c. Qed.

Lemma number_not_v c :
  existsb (Ascii.eqb c) numbers = true -> Ascii.eqb c "v"%char = false.
Proof. each_char c. Qed.

Lemma separators_not_space :
  isSpace "."%char = false /\ isSpace "+"%char = false /\ isSpace "-"%char = false.
Proof. repeat split. Qed.

(** Lower case commutes with cutting and splitting at a separator that
    lower case leaves alone. *)
Section Separator.
Variable sep : ascii.
Hypothesis lower_sep : forall c, Ascii.eqb (lower c) sep = Ascii.eqb c sep.

Lemma Cut_ToLower s :
  Cut (ToLower s) sep =
  match Cut s sep with
  | Some (a, b) => Some (ToLower a, ToLower b)
  | None => None
  end.
Proof.
  induction s as [|c t IH]; simpl; [reflexivity|].
  rewrite lower_sep. destruct (Ascii.eqb c sep); [reflexivity|].
  rewrite IH. destruct (Cut t sep) as [[a b]|]; reflexivity.
Qed.

Lemma Split_ToLower s :
  Split (ToLower s) sep = map ToLower (Split s sep).
Proof.
  induction s as [|c t IH]; simpl; [reflexivity|].
  rewrite lower_sep. destruct (Ascii.eqb c sep); simpl; [now rewrite IH|].
  rewrite IH. destruct (Split t sep); reflexivity.
Qed.

Lemma SplitN_ToLower n s :
  SplitN (ToLower s) sep n = map ToLower (SplitN s sep n).
Proof.
  revert s. induction n as [|n IH]; intros s; [reflexivity|].
  destruct n as [|n']; [reflexivity|].
  change (SplitN (ToLower s) sep (S (S n'))) with
    (match Cut (ToLower s) sep with
     | Some (a, b) => a :: SplitN b sep (S n')
     | None => [ToLower s]
     end).
  change (SplitN s sep (S (S n'))) with
    (match Cut s sep with
     | Some (a, b) => a :: SplitN b sep (S n')
     | None => [s]
     end).
  rewrite Cut_ToLower. destruct (Cut s sep) as [[a b]|]; [|reflexivity].
  simpl map. now rewrite IH.
Qed.
End Separator.

Lemma Cut_app s sep a b : Cut s sep = Some (a, b) -> s = a ++ sep :: b.
Proof.
  revert a b. induction s as [|c t IH]; simpl; intros a b; [discriminate|].
  destruct (Ascii.eqb c sep) eqn:E.
  - apply Ascii.eqb_eq in E. intros [= <- <-]. now subst.
  - destruct (Cut t sep) as [[a' b']|]; [|discriminate].
    intros [= <- <-]. simpl. f_equal. now apply IH.
Qed.

Lemma containsOnly_ToLower_numbers s :
  containsOnly (ToLower s) numbers = containsOnly s numbers.
Proof.
  unfold containsOnly, ToLower. induction s as [|c t IH]; [reflexivity|].
  cbn [map forallb]. now rewrite lower_number, IH.
Qed.

Lemma containsOnly_ToLower_alphanum s :
  containsOnly (ToLower s) alphanum = containsOnly s alphanum.
Proof.
  unfold containsOnly, ToLower. induction s as [|c t IH]; [reflexivity|].
  cbn [map forallb]. now rewrite lower_alphanum, IH.
Qed.

Lemma ToLower_numbers s : containsOnly s numbers = true -> ToLower s = s.
Proof.
  unfold containsOnly, ToLower. induction s as [|c t IH]; simpl; [reflexivity|].
  intros H. apply andb_true_iff in H as [Hc Ht].
  now rewrite lower_of_number, IH.
Qed.

Lemma is_empty_ToLower s : is_empty (ToLower s) = is_empty s.
Proof. now destruct s. Qed.

Lemma ToLower_app a b : ToLower (a ++ b) = ToLower a ++ ToLower b.
Proof. apply map_app. Qed.

Lemma ToLower_spaces ws :
  Forall (fun c => isSpace c = true) ws -> ToLower ws = ws.
Proof.
  induction 1 as [|c t Hc _ IH]; simpl; [reflexivity|].
  now rewrite lower_space, IH.
Qed.

(** ** Lower case keeps a version valid *)

Lemma number_ToLower s inv lead :
  accepted (number s inv lead) = true ->
  accepted (number (ToLower s) inv lead) = true.
Proof.
  unfold number. destruct (containsOnly s numbers) eqn:C; [|discriminate].
  now rewrite (ToLower_numbers s C), C.
Qed.

Lemma NewPRVersion_ToLower s :
  accepted (NewPRVersion s) = true ->
  accepted (NewPRVersion (ToLower s)) = true.
Proof.
  unfold NewPRVersion.
  rewrite is_empty_ToLower, containsOnly_ToLower_numbers,
    containsOnly_ToLower_alphanum.
  destruct (is_empty s); [discriminate|].
  destruct (containsOnly s numbers) eqn:C.
  - now rewrite (ToLower_numbers s C).
  - destruct (containsOnly s alphanum); [reflexivity|discriminate].
Qed.

Lemma prereleases_ToLower l :
  accepted (prereleases l) = true ->
  accepted (prereleases (map ToLower l)) = true.
Proof.
  induction l as [|s rest IH]; simpl; [reflexivity|].
  pose proof (NewPRVersion_ToLower s) as H.
  destruct (NewPRVersion s); [|discriminate].
  destruct (NewPRVersion (ToLower s)); [|now specialize (H eq_refl)].
  destruct (prereleases rest); [|discriminate].
  destruct (prereleases (map ToLower rest)); [reflexivity|].
  intros _. now specialize (IH eq_refl).
Qed.

Lemma builds_ToLower l :
  accepted (builds l) = true ->
  accepted (builds (map ToLower l)) = true.
Proof.
  induction l as [|s rest IH]; simpl; [reflexivity|].
  rewrite is_empty_ToLower, containsOnly_ToLower_alphanum.
  destruct (is_empty s); [discriminate|].
  destruct (negb (containsOnly s alphanum)); [discriminate|].
  destruct (builds rest); [|discriminate].
  destruct (builds (map ToLower rest)); [reflexivity|].
  intros _. now specialize (IH eq_refl).
Qed.

Lemma Parse_accepted s : accepted (Parse s) = well_formed_version s.
Proof.
  unfold Parse, well_formed_version, patch_fields.
  destruct (is_empty s); [reflexivity|]. cbn [negb andb].
  destruct (SplitN s "."%char 3) as [|p0 [|p1 [|p2 [|]]]]; try reflexivity.
  destruct (number p0 _ _); [|reflexivity].
  destruct (number p1 _ _); [|reflexivity].
  cbn [accepted andb].
  destruct (Cut p2 "+"%char) as [[before after]|];
    [destruct (Cut before "-"%char) as [[? ?]|]
    |destruct (Cut p2 "-"%char) as [[? ?]|]];
    cbn [accepted andb];
    (destruct (number _ InvalidCharPatch LeadingZeroesPatch); [|reflexivity]);
    (destruct (prereleases _); [|reflexivity]);
    (destruct (builds _); reflexivity).
Qed.

Lemma patch_fields_ToLower p2 :
  patch_fields (ToLower p2) =
  let '(patchStr, prerelease, build) := patch_fields p2 in
  (ToLower patchStr, map ToLower prerelease, map ToLower build).
Proof.
  unfold patch_fields.
  rewrite (Cut_ToLower _ lower_plus).
  destruct (Cut p2 "+"%char) as [[before after]|].
  - rewrite (Cut_ToLower _ lower_minus), !(Split_ToLower _ lower_dot).
    destruct (Cut before "-"%char) as [[? ?]|];
      now rewrite ?(Split_ToLower _ lower_dot).
  - rewrite (Cut_ToLower _ lower_minus).
    destruct (Cut p2 "-"%char) as [[? ?]|];
      now rewrite ?(Split_ToLower _ lower_dot).
Qed.

Lemma well_formed_ToLower s :
  well_formed_version s = true -> well_formed_version (ToLower s) = true.
Proof.
  unfold well_formed_version.
  rewrite is_empty_ToLower, (SplitN_ToLower _ lower_dot).
  destruct (is_empty s); [discriminate|]. cbn [negb andb].
  destruct (SplitN s "."%char 3) as [|p0 [|p1 [|p2 [|]]]]; try discriminate.
  cbn [map]. rewrite patch_fields_ToLower.
  destruct (patch_fields p2) as [[patchStr prerelease] build].
  rewrite !andb_true_iff.
  intros ((H0 & H1) & (H2 & H3) & H4).
  auto 10 using number_ToLower, prereleases_ToLower, builds_ToLower.
Qed.

Lemma Parse_ToLower s :
  accepted (Parse s) = true -> accepted (Parse (ToLower s)) = true.
Proof. rewrite !Parse_accepted. apply well_formed_ToLower. Qed.

(** ** A valid version has no white space and starts with a digit *)

Lemma SplitN_three s sep p0 p1 p2 :
  SplitN s sep 3 = [p0; p1; p2] -> s = p0 ++ sep :: p1 ++ sep :: p2.
Proof.
  cbn [SplitN].
  destruct (Cut s sep) as [[a b]|] eqn:C1; [|discriminate].
  destruct (Cut b sep) as [[a' b']|] eqn:C2; [|discriminate].
  intros [= <- <- <-].
  apply Cut_app in C1, C2. now subst.
Qed.

Lemma Forall_Join (P : ascii -> Prop) l sep :
  Forall (Forall P) l -> P sep -> Forall P (Join l sep).
Proof.
  intros H Hsep. induction H as [|e rest He _ IH]; [constructor|].
  destruct rest as [|e2 rest']; [exact He|].
  change (Join (e :: e2 :: rest') sep) with (e ++ sep :: Join (e2 :: rest') sep).
  apply Forall_app. split; [exact He|]. now constructor.
Qed.

Lemma Forall_of_Split (P : ascii -> Prop) x sep :
  Forall (Forall P) (Split x sep) -> P sep -> Forall P x.
Proof.
  intros F Hsep. rewrite <- (strings_facts.Join_Split x sep).
  now apply Forall_Join.
Qed.

Lemma Forall_cut_pieces (P : ascii -> Prop) x sep patchStr pieces :
  match Cut x sep with
  | Some (before, after) => (before, Split after "."%char)
  | None => (x, [])
  end = (patchStr, pieces) ->
  P sep -> P "."%char ->
  Forall P patchStr -> Forall (Forall P) pieces -> Forall P x.
Proof.
  destruct (Cut x sep) as [[before after]|] eqn:C.
  - intros E Hsep Hdot Hp Hpieces. injection E as E1 E2. subst.
    apply Cut_app in C. subst x.
    apply Forall_app. split; [assumption|].
    constructor; [assumption|]. now apply Forall_of_Split with "."%char.
  - intros E _ _ Hp _. injection E as E1 E2. now subst.
Qed.

Lemma Forall_patch_fields (P : ascii -> Prop) p2 patchStr prerelease build :
  patch_fields p2 = (patchStr, prerelease, build) ->
  P "+"%char -> P "-"%char -> P "."%char ->
  Forall P patchStr -> Forall (Forall P) prerelease -> Forall (Forall P) build ->
  Forall P p2.
Proof.
  unfold patch_fields. intros E Pp Pm Pd Hp Hpre Hb.
  destruct (match Cut p2 "+"%char with
            | Some (before, after) => (before, Split after "."%char)
            | None => (p2, [])
            end) as [patchStr0 build0] eqn:C1.
  destruct (match Cut patchStr0 "-"%char with
            | Some (before, after) => (before, Split after "."%char)
            | None => (patchStr0, [])
            end) as [patchStr1 prerelease1] eqn:C2.
  injection E as E1 E2 E3. subst.
  eapply Forall_cut_pieces; [exact C1|assumption|assumption| |assumption].
  eapply Forall_cut_pieces; [exact C2|assumption|assumption|assumption|assumption].
Qed.

Lemma containsOnly_Forall s set :
  containsOnly s set = true ->
  Forall (fun c => existsb (Ascii.eqb c) set = true) s.
Proof. unfold containsOnly. intros H. now apply Forall_forall, forallb_forall. Qed.

Lemma number_accepted s inv lead :
  accepted (number s inv lead) = true ->
  containsOnly s numbers = true /\ s <> [].
Proof.
  unfold number. destruct (containsOnly s numbers); [|discriminate].
  destruct (hasLeadingZeroes s); [discriminate|].
  unfold strconv.ParseUint. destruct s; [discriminate|].
  intros _. split; [reflexivity|discriminate].
Qed.

Lemma alphanum_no_space s : containsOnly s alphanum = true -> no_space s.
Proof.
  intros H. apply containsOnly_Forall in H.
  eapply Forall_impl; [|exact H]. apply alphanum_not_space.
Qed.

Lemma numbers_no_space s : containsOnly s numbers = true -> no_space s.
Proof.
  intros H. apply containsOnly_Forall in H.
  eapply Forall_impl; [|exact H].
  intros c Hc. now apply alphanum_not_space, number_is_alphanum.
Qed.

Lemma prereleases_no_space l :
  accepted (prereleases l) = true -> Forall no_space l.
Proof.
  induction l as [|s rest IH]; simpl; [constructor|].
  unfold NewPRVersion at 1.
  destruct (is_empty s); [discriminate|].
  destruct (containsOnly s numbers) eqn:N.
  - destruct (hasLeadingZeroes s); [discriminate|].
    destruct (strconv.ParseUint s); [|discriminate].
    destruct (prereleases rest); [|discriminate].
    intros _. constructor; [now apply numbers_no_space|now apply IH].
  - destruct (containsOnly s alphanum) eqn:A; [|discriminate].
    destruct (prereleases rest); [|discriminate].
    intros _. constructor; [now apply alphanum_no_space|now apply IH].
Qed.

Lemma builds_no_space l :
  accepted (builds l) = true -> Forall no_space l.
Proof.
  induction l as [|s rest IH]; simpl; [constructor|].
  destruct (is_empty s); [discriminate|].
  destruct (containsOnly s alphanum) eqn:A; [|discriminate]. cbn [negb].
  destruct (builds rest); [|discriminate].
  intros _. constructor; [now apply alphanum_no_space|now apply IH].
Qed.

Lemma version_shape s :
  well_formed_version s = true ->
  no_space s /\
  exists c t, s = c :: t /\ existsb (Ascii.eqb c) numbers = true.
Proof.
  unfold well_formed_version.
  destruct (is_empty s); [discriminate|]. cbn [negb andb].
  destruct (SplitN s "."%char 3) as [|p0 [|p1 [|p2 [|]]]] eqn:S; try discriminate.
  apply SplitN_three in S.
  destruct (patch_fields p2) as [[patchStr prerelease] build] eqn:F.
  rewrite !andb_true_iff.
  intros ((H0 & H1) & (H2 & H3) & H4).
  apply number_accepted in H0 as [N0 E0], H1 as [N1 _], H2 as [N2 _].
  split.
  - subst s. unfold no_space.
    apply Forall_app. split; [now apply numbers_no_space|].
    constructor; [reflexivity|].
    apply Forall_app. split; [now apply numbers_no_space|].
    constructor; [reflexivity|].
    apply (Forall_patch_fields _ p2 patchStr prerelease build F);
      try reflexivity.
    + now apply numbers_no_space.
    + now apply prereleases_no_space.
    + now apply builds_no_space.
  - destruct p0 as [|c t]; [congruence|].
    exists c, (t ++ "."%char :: p1 ++ "."%char :: p2).
    split; [exact S|].
    apply containsOnly_Forall in N0. now inversion N0.
Qed.

(** ** Trimming *)

Lemma TrimLeftSpace_spaces ws s :
  Forall (fun c => isSpace c = true) ws ->
  TrimLeftSpace (ws ++ s) = TrimLeftSpace s.
Proof.
  induction 1 as [|c t Hc _ IH]; [reflexivity|].
  simpl. now rewrite Hc.
Qed.

Lemma TrimLeftSpace_id c s : isSpace c = false -> TrimLeftSpace (c :: s) = c :: s.
Proof. intros H. simpl. now rewrite H. Qed.

Lemma TrimSpace_core ws1 ws2 s :
  Forall (fun c => isSpace c = true) ws1 ->
  Forall (fun c => isSpace c = true) ws2 ->
  no_space s -> s <> [] ->
  TrimSpace (ws1 ++ s ++ ws2) = s.
Proof.
  intros W1 W2 N E. unfold TrimSpace.
  rewrite TrimLeftSpace_spaces by assumption.
  destruct s as [|c t]; [congruence|].
  inversion N as [|? ? Nc Nt]; subst.
  change ((c :: t) ++ ws2) with (c :: (t ++ ws2)).
  rewrite TrimLeftSpace_id by assumption.
  change (c :: t ++ ws2) with ((c :: t) ++ ws2).
  rewrite rev_app_distr.
  rewrite TrimLeftSpace_spaces by (now apply Forall_rev).
  assert (exists d u, rev (c :: t) = d :: u /\ isSpace d = false) as (d & u & R & D).
  { assert (Forall (fun c => isSpace c = false) (rev (c :: t))) as F
      by (apply Forall_rev; now constructor).
    destruct (rev (c :: t)) as [|d u] eqn:R.
    - apply (f_equal (@List.length ascii)) in R.
      rewrite length_rev in R. discriminate.
    - inversion F; subst. eauto. }
  rewrite R, TrimLeftSpace_id by assumption.
  rewrite <- R. apply rev_involutive.
Qed.
End semver_facts.

Lemma validateSemVer_core (ws1 ws2 pfx s : gostring) (v : semver.Version) :
  semver.Make s = Ok v ->
  Forall (fun c => strings.isSpace c = true) ws1 ->
  Forall (fun c => strings.isSpace c = true) ws2 ->
  pfx = [] \/ pfx = "v" \/ pfx = "V" ->
  validateSemVer (ws1 ++ pfx ++ s ++ ws2) = None.
Proof.
  intros M W1 W2 P. unfold validateSemVer.
  assert (accepted (semver.Parse (strings.ToLower s)) = true) as A.
  { apply semver_facts.Parse_ToLower. unfold semver.Make in M. now rewrite M. }
  pose proof A as Shape. rewrite semver_facts.Parse_accepted in Shape.
  apply semver_facts.version_shape in Shape as (N & c & t & E & D).
  rewrite !semver_facts.ToLower_app.
  rewrite (semver_facts.ToLower_spaces ws1 W1), (semver_facts.ToLower_spaces ws2 W2).
  rewrite E in *.
  assert (strings.TrimPrefix
            (strings.TrimSpace (ws1 ++ strings.ToLower pfx ++ (c :: t) ++ ws2))
            "v"%char = c :: t) as ->.
  { destruct P as [ -> | [ -> | -> ] ].
    - change (strings.ToLower [] ++ (c :: t) ++ ws2) with ((c :: t) ++ ws2).
      rewrite semver_facts.TrimSpace_core; try assumption; [|discriminate].
      simpl. now rewrite (semver_facts.number_not_v c D).
    - change (strings.ToLower "v" ++ (c :: t) ++ ws2)
        with (("v"%char :: c :: t) ++ ws2).
      rewrite semver_facts.TrimSpace_core; try assumption;
        [reflexivity|now constructor|discriminate].
    - change (strings.ToLower "V" ++ (c :: t) ++ ws2)
        with (("v"%char :: c :: t) ++ ws2).
      rewrite semver_facts.TrimSpace_core; try assumption;
        [reflexivity|now constructor|discriminate]. }
  unfold semver.Make. now destruct (semver.Parse (c :: t)).
Qed.

(** C9. The version check is lenient about white space and about the
    case of the leading "v": a valid semantic version, possibly preceded by
    "v" or "V", and surrounded by any amount of white space, passes
    [validateSemVer] (which puts the text in lower case, trims white space,
    strips one leading "v" and only then parses it); so the product and
    the application validators accept it as a version segment.  In
    particular the version segments [" 1.0.0 "] and ["V2.3.1"] are
    accepted on product and application paths. *)
Theorem validateSemVer_lenient (ws1 ws2 pfx s : gostring) (v : semver.Version) :
  semver.Make s = Ok v ->
  Forall (fun c => strings.isSpace c = true) ws1 ->
  Forall (fun c => strings.isSpace c = true) ws2 ->
  pfx = [] \/ pfx = "v" \/ pfx = "V" ->
  validateSemVer (ws1 ++ pfx ++ s ++ ws2) =
    match semver.Make
            (strings.TrimPrefix
               (strings.TrimSpace (strings.ToLower (ws1 ++ pfx ++ s ++ ws2)))
               "v"%char) with
    | Err err => Some err
    | Ok _ => None
    end /\
  validateSemVer (ws1 ++ pfx ++ s ++ ws2) = None /\
  (forall name key tail,
     validate_text name = None ->
     validateProduct (name :: (ws1 ++ pfx ++ s ++ ws2) :: key :: tail) = Success) /\
  (forall stage platform product component key tail,
     In stage platformQualityLevels ->
     validate_text platform = None ->
     validate_text product = None ->
     validate_text component = None ->
     validateApplication
       (stage :: platform :: product :: (ws1 ++ pfx ++ s ++ ws2)
          :: component :: key :: tail) = Success) /\
  Validate "product/payments/ 1.0.0 /key" = Success /\
  Validate "product/payments/V2.3.1/key" = Success /\
  Validate "app/staging/checkout/payments/ 1.0.0 /worker/key" = Success /\
  Validate "app/staging/checkout/payments/V2.3.1/worker/key" = Success.
Proof.
  intros M W1 W2 P.
  pose proof (validateSemVer_core ws1 ws2 pfx s v M W1 W2 P) as SV.
  split; [reflexivity|].
  split; [exact SV|].
  split; [|split; [|repeat split; vm_compute; reflexivity]].
  - intros name key tail Vn. unfold validateProduct.
    cbn [len List.length Nat.ltb Nat.leb index nth_error bind].
    now rewrite Vn, SV.
  - intros stage platform product component key tail Hs Vp Vq Vc.
    rewrite validateApplication_steps.
    apply Contains_In in Hs. now rewrite Hs, Vp, Vq, SV, Vc.
Qed.

Lemma validateSemVer_lenient_witness :
  validateSemVer "  V1.2.3-rc.1+build.7 " = None.
Proof.
  refine (proj1 (proj2 (validateSemVer_lenient "  " " " "V" "1.2.3-rc.1+build.7"
            {| semver.Major := 1; semver.Minor := 2; semver.Patch := 3;
               semver.Pre :=
                 [ {| semver.VersionStr := "rc"; semver.VersionNum := 0;
                      semver.IsNum := false |};
                   {| semver.VersionStr := []; semver.VersionNum := 1;
                      semver.IsNum := true |} ];
               semver.Build := strs ["build"; "7"] |} _ _ _ _))).
  - vm_compute. reflexivity.
  - repeat constructor.
  - repeat constructor.
  - right. right. reflexivity.
Defined.

(** * The secret value codec *)

Module asn1_facts.
Import asn1.

Ltac div_lia := zify; Z.to_euclidean_division_equations; lia.

Lemma byte_val_byte n : byte_val (byte n) = (n mod 256)%N.
Proof.
  unfold byte_val, byte. apply N_ascii_embedding.
  apply N.mod_lt. discriminate.
Qed.

Lemma lor_shiftl_8 a b : (b < 256)%N -> N.lor (N.shiftl a 8) b = (a * 256 + b)%N.
Proof.
  intros H. rewrite N.shiftl_mul_pow2. change (2 ^ 8)%N with 256%N.
  assert (N.land (a * 256) b = 0%N) as Z.
  { apply N.bits_inj. intros n. rewrite N.land_spec, N.bits_0.
    destruct (N.lt_ge_cases n 8).
    - change 256%N with (2 ^ 8)%N.
      now rewrite N.mul_pow2_bits_low by assumption.
    - rewrite (N.testbit_eqb b n), N.div_small; [apply andb_false_r|].
      apply N.lt_le_trans with (2 ^ 8)%N; [assumption|].
      apply N.pow_le_mono_r; lia. }
  now rewrite <- N.lxor_lor, <- N.add_nocarry_lxor.
Qed.

Lemma pow256_pos k : (0 < 256 ^ k)%N.
Proof. apply N.neq_0_lt_0, N.pow_nonzero. discriminate. Qed.

Lemma pow256_succ k : (256 ^ N.of_nat (S k) = 256 * 256 ^ N.of_nat k)%N.
Proof. rewrite Nat2N.inj_succ. apply N.pow_succ_r'. Qed.

(** The length octets written by [appendLength] are read back. *)
Lemma parseLength_loop k : forall acc i rest,
  (acc * 256 ^ N.of_nat k + i mod 256 ^ N.of_nat k < 2 ^ 31)%N ->
  (acc <> 0 \/ forall k', k = S k' -> (i / 256 ^ N.of_nat k') mod 256 <> 0)%N ->
  parseLength k acc (appendLength_loop k i ++ rest) =
  Some (acc * 256 ^ N.of_nat k + i mod 256 ^ N.of_nat k, rest)%N.
Proof.
  induction k as [|k IH]; intros acc i rest B NZ.
  - simpl. rewrite N.mod_1_r. f_equal. f_equal. lia.
  - cbn [appendLength_loop app parseLength].
    pose proof (pow256_pos (N.of_nat k)) as P.
    rewrite pow256_succ in B.
    assert (i mod (256 * 256 ^ N.of_nat k) =
            i mod 256 ^ N.of_nat k
            + 256 ^ N.of_nat k * ((i / 256 ^ N.of_nat k) mod 256))%N as E.
    { rewrite (N.mul_comm 256). apply N.Div0.mod_mul_r. }
    rewrite pow256_succ, E. rewrite E in B.
    rewrite byte_val_byte.
    set (p := (256 ^ N.of_nat k)%N) in *.
    set (r := (i mod p)%N) in *.
    set (q := ((i / p) mod 256)%N) in *.
    assert (q < 256)%N as Hq by (apply N.mod_lt; discriminate).
    change (2 ^ 31)%N with 2147483648%N in *.
    change (2 ^ 23)%N with 8388608%N.
    assert (acc * 256 <= acc * (256 * p))%N as Hp by nia.
    assert (acc < 8388608)%N as A by lia.
    apply N.leb_gt in A. rewrite A.
    rewrite lor_shiftl_8 by assumption.
    assert (acc * 256 + q <> 0)%N as NZ'.
    { destruct NZ as [NZ|NZ]; [lia|]. specialize (NZ k eq_refl).
      change (q <> 0%N) in NZ. lia. }
    apply N.eqb_neq in NZ' as Q. rewrite Q.
    rewrite IH; fold p; fold r; [|nia|now left].
    f_equal. f_equal. nia.
Qed.

Lemma lengthLength_cases L :
  (L < 2 ^ 31)%N ->
  (lengthLength L = 1 /\ (L < 256)%N) \/
  (lengthLength L = 2 /\ (256 <= L < 65536)%N) \/
  (lengthLength L = 3 /\ (65536 <= L < 16777216)%N) \/
  (lengthLength L = 4 /\ (16777216 <= L)%N).
Proof.
  intros B. unfold lengthLength. cbn [lengthLength_loop].
  change (2 ^ 31)%N with 2147483648%N in *.
  destruct (255 <? L)%N eqn:C1;
    [apply N.ltb_lt in C1|apply N.ltb_ge in C1; left; split; [reflexivity|lia]].
  destruct (255 <? L / 256)%N eqn:C2;
    [apply N.ltb_lt in C2
    |apply N.ltb_ge in C2; right; left; split; [reflexivity|div_lia]].
  destruct (255 <? L / 256 / 256)%N eqn:C3;
    [apply N.ltb_lt in C3
    |apply N.ltb_ge in C3; right; right; left; split; [reflexivity|div_lia]].
  assert ((255 <? L / 256 / 256 / 256)%N = false) as -> by (apply N.ltb_ge; div_lia).
  right; right; right. split; [reflexivity|div_lia].
Qed.

Lemma parseLength_appendLength L rest :
  (0 < L < 2 ^ 31)%N ->
  parseLength (lengthLength L) 0 (appendLength L ++ rest) = Some (L, rest).
Proof.
  intros B. unfold appendLength.
  assert (L mod 256 ^ N.of_nat (lengthLength L) = L /\
          forall k', lengthLength L = S k' ->
                     (L / 256 ^ N.of_nat k') mod 256 <> 0)%N as [M T].
  change (2 ^ 31)%N with 2147483648%N in *.
  { destruct (lengthLength_cases L) as [[-> H]|[[-> H]|[[-> H]|[-> H]]]];
      [lia| | | |]; (split; [apply N.mod_small; simpl; lia|]);
      intros k' [= <-]; simpl; div_lia. }
  rewrite parseLength_loop.
  - rewrite M. reflexivity.
  - rewrite M. lia.
  - now right.
Qed.

Lemma short_length_octet c :
  (byte_val c < 128)%N ->
  N.land (byte_val c) 128 = 0%N /\ N.land (byte_val c) 127 = byte_val c.
Proof.
  destruct c as [[] [] [] [] [] [] [] []]; vm_compute; intros H;
    try (split; reflexivity); discriminate H.
Qed.

Lemma parseTagAndLength_header tagNumber compound L rest :
  In (tagNumber, compound) asn1_envelope_tags ->
  (L < 2 ^ 31)%N ->
  parseTagAndLength
    (appendTagAndLength {| class := ClassUniversal; tag := tagNumber;
                           length := L; isCompound := compound |} ++ rest) =
  Some ({| class := ClassUniversal; tag := tagNumber;
           length := L; isCompound := compound |}, rest).
Proof.
  intros T B.
  assert (forall tail result,
    (match tail with
     | [] => None
     | l :: rest' =>
         if (N.land (byte_val l) 128 =? 0)%N
         then Some ({| class := ClassUniversal; tag := tagNumber;
                       length := N.land (byte_val l) 127;
                       isCompound := compound |}, rest')
         else
           if (N.land (byte_val l) 127 =? 0)%N then None
           else
             match parseLength (N.to_nat (N.land (byte_val l) 127)) 0 rest' with
             | None => None
             | Some (length, rest'') =>
                 if (length <? 128)%N then None
                 else Some ({| class := ClassUniversal; tag := tagNumber;
                               length := length; isCompound := compound |}, rest'')
             end
     end) = result ->
    parseTagAndLength
      (byte (N.lor (N.shiftl ClassUniversal 6)
               (N.lor (if compound then 32 else 0) tagNumber)) :: tail) = result)
    as Identifier.
  { intros tail result <-.
    destruct T as [[= <- <-]|[[= <- <-]|[[= <- <-]|[[= <- <-]|[]]]]]; reflexivity. }
  unfold appendTagAndLength.
  cbn [class tag length isCompound app].
  apply Identifier.
  destruct (128 <=? L)%N eqn:Long.
  - apply N.leb_le in Long.
    assert (0 < L < 2 ^ 31)%N as B' by lia.
    pose proof (parseLength_appendLength L rest B') as PL.
    assert ((L <? 128)%N = false) as NS by (apply N.ltb_ge; lia).
    cbn [app].
    destruct (lengthLength_cases L B) as [[E _]|[[E _]|[[E _]|[E _]]]];
      rewrite E in *; cbn - [parseLength appendLength N.ltb];
      match goal with
      | |- context [parseLength ?n 0%N] =>
          let n' := eval vm_compute in n in change n with n'
      end;
      rewrite PL, NS; reflexivity.
  - apply N.leb_gt in Long. cbn [app].
    assert (byte_val (byte L) = L) as V
      by (rewrite byte_val_byte; apply N.mod_small; lia).
    destruct (short_length_octet (byte L)) as [Z M]; [rewrite V; lia|].
    rewrite Z, M, V. reflexivity.
Qed.

Lemma takeBody_app body rest :
  takeBody (N.of_nat (len body)) (body ++ rest) = Some (body, rest).
Proof.
  unfold takeBody, len. rewrite length_app, Nat2N.id.
  assert ((N.of_nat (List.length body + List.length rest)
           <? N.of_nat (List.length body))%N = false) as ->
    by (apply N.ltb_ge; lia).
  rewrite firstn_app, skipn_app, Nat.sub_diag, firstn_all, skipn_all.
  simpl. now rewrite app_nil_r.
Qed.

Lemma parse_encode tagNumber compound body rest :
  In (tagNumber, compound) asn1_envelope_tags ->
  (N.of_nat (len body) < 2 ^ 31)%N ->
  parseTagAndLength (encode tagNumber compound body ++ rest) =
  Some ({| class := ClassUniversal; tag := tagNumber;
           length := N.of_nat (len body); isCompound := compound |},
        body ++ rest).
Proof.
  intros T B. unfold encode. rewrite <- app_assoc.
  now apply parseTagAndLength_header.
Qed.

Lemma encode_cons tagNumber compound body :
  exists b tail, encode tagNumber compound body = b :: tail.
Proof. unfold encode, appendTagAndLength. simpl. eauto. Qed.

Lemma appendLength_loop_length k i : len (appendLength_loop k i) = k.
Proof. unfold len. induction k; simpl; congruence. Qed.

Lemma encode_length tagNumber compound body :
  len (encode tagNumber compound body) = field_length body.
Proof.
  unfold encode, appendTagAndLength, field_length, header_length, len.
  rewrite length_app. cbn [class tag length isCompound List.length].
  destruct (128 <=? N.of_nat (List.length body))%N; [|reflexivity].
  cbn [List.length]. unfold appendLength.
  pose proof (appendLength_loop_length
                (lengthLength (N.of_nat (List.length body)))
                (N.of_nat (List.length body))) as A.
  unfold len in A. now rewrite A.
Qed.

Lemma printable_both_ways s :
  forallb (fun c => (byte_val c <? 128)%N
                    && isPrintable c rejectAsterisk rejectAmpersand) s = true ->
  forallb (fun b => isPrintable b allowAsterisk allowAmpersand) s = true.
Proof.
  rewrite !forallb_forall. intros H c Hc. specialize (H c Hc).
  apply andb_true_iff in H as [_ H]. revert H.
  unfold isPrintable, rejectAsterisk, rejectAmpersand, allowAsterisk, allowAmpersand.
  cbn [andb]. rewrite !orb_false_r. intros ->. reflexivity.
Qed.

Lemma parseStringField_marshalString s field rest :
  marshalString s = Some field ->
  (N.of_nat (len s) < 2 ^ 31)%N ->
  parseStringField (field ++ rest) = Some (s, rest).
Proof.
  unfold marshalString. intros M B.
  destruct (forallb _ s) eqn:P.
  - injection M as <-.
    unfold parseStringField.
    destruct (encode_cons TagPrintableString false s) as (b & tail & E).
    rewrite E at 1. cbn [app].
    rewrite parse_encode by (assumption || (right; left; reflexivity)).
    cbn [class tag length isCompound].
    cbn - [takeBody parsePrintableString].
    rewrite takeBody_app.
    unfold parsePrintableString. now rewrite (printable_both_ways s P).
  - destruct (utf8.ValidString s) eqn:V; [|discriminate].
    injection M as <-.
    unfold parseStringField.
    destruct (encode_cons TagUTF8String false s) as (b & tail & E).
    rewrite E at 1. cbn [app].
    rewrite parse_encode by (assumption || (right; right; left; reflexivity)).
    cbn [class tag length isCompound].
    cbn - [takeBody parseUTF8String].
    rewrite takeBody_app.
    unfold parseUTF8String. unfold utf8.ValidString in V. now rewrite V.
Qed.

Lemma parseBytesField_marshalBytes body rest :
  (N.of_nat (len body) < 2 ^ 31)%N ->
  parseBytesField (marshalBytes body ++ rest) = Some (body, rest).
Proof.
  intros B. unfold parseBytesField, marshalBytes.
  destruct (encode_cons TagOctetString false body) as (b & tail & E).
  rewrite E at 1. cbn [app].
  rewrite parse_encode by (assumption || (right; right; right; left; reflexivity)).
  cbn [class tag length isCompound].
  cbn - [takeBody].
  apply takeBody_app.
Qed.

Lemma marshalString_length s field :
  marshalString s = Some field -> len field = field_length s.
Proof.
  unfold marshalString. intros M.
  destruct (forallb _ s); [|destruct (utf8.ValidString s); [|discriminate]];
    injection M as <-; apply encode_length.
Qed.

Lemma field_length_le content : len content <= field_length content.
Proof. unfold field_length. lia. Qed.
End asn1_facts.

Lemma Unmarshal_Marshal v payload suffix :
  Marshal v = Some payload ->
  within_limit v ->
  Unmarshal (payload ++ suffix) = Some (v, suffix).
Proof.
  unfold Marshal, within_limit, envelope_length.
  destruct v as [ty body]. cbn [Type_ Body].
  intros M L.
  destruct (asn1.marshalString ty) as [field0|] eqn:F; [|discriminate].
  injection M as <-.
  pose proof (asn1_facts.marshalString_length ty field0 F) as S0.
  pose proof (asn1_facts.encode_length asn1.TagOctetString false body) as S1.
  pose proof (asn1_facts.field_length_le ty) as B0.
  pose proof (asn1_facts.field_length_le body) as B1.
  assert (N.of_nat (len ty) < 2 ^ 31)%N as Lt by lia.
  assert (N.of_nat (len body) < 2 ^ 31)%N as Lb by lia.
  assert (N.of_nat (len (field0 ++ asn1.marshalBytes body)) < 2 ^ 31)%N as Lc.
  { unfold asn1.marshalBytes, len in *. rewrite length_app. lia. }
  unfold Unmarshal.
  destruct (asn1_facts.encode_cons asn1.TagSequence true
              (field0 ++ asn1.marshalBytes body)) as (b & tail & E).
  rewrite E at 1. cbn [app].
  rewrite asn1_facts.parse_encode by (assumption || (left; reflexivity)).
  cbn [asn1.class asn1.tag asn1.length asn1.isCompound].
  rewrite !N.eqb_refl. cbn [andb negb orb].
  rewrite asn1_facts.takeBody_app.
  rewrite (asn1_facts.parseStringField_marshalString ty field0 _ F Lt).
  rewrite <- (app_nil_r (asn1.marshalBytes body)).
  rewrite (asn1_facts.parseBytesField_marshalBytes body [] Lb).
  reflexivity.
Qed.

Lemma marshalString_valid s :
  utf8.ValidString s = true -> exists field, asn1.marshalString s = Some field.
Proof.
  intros V. unfold asn1.marshalString. rewrite V.
  destruct (forallb _ s); eauto.
Qed.

Lemma Pack_Marshal v payload : Pack v = Ok payload <-> Marshal v = Some payload.
Proof.
  unfold Pack. destruct (Marshal v); split; congruence.
Qed.

Lemma Unpack_suffix v payload suffix :
  Pack v = Ok payload -> within_limit v -> Unpack (payload ++ suffix) = Ok v.
Proof.
  intros P L. apply Pack_Marshal in P.
  unfold Unpack. now rewrite (Unmarshal_Marshal v payload suffix P L).
Qed.

(** ** Beyond the limit *)





(** A body of 2^31 bytes puts a value beyond the limit. *)
Lemma beyond_limit ty body :
  N.of_nat (len body) = (2 ^ 31)%N ->
  ~ within_limit {| Type_ := ty; Body := body |}.
Proof.
  unfold within_limit, envelope_length, field_length. cbn [Type_ Body].
  intros L. rewrite L.
  change (header_length (2 ^ 31)) with 6.
  lia.
Qed.





(** ** Round trip *)

Lemma Pack_succeeds v :
  utf8.ValidString (Type_ v) = true -> exists payload, Pack v = Ok payload.
Proof.
  intros V. destruct (marshalString_valid (Type_ v) V) as [field F].
  unfold Pack, Marshal. rewrite F. eauto.
Qed.

Lemma round_trip v :
  utf8.ValidString (Type_ v) = true ->
  within_limit v ->
  exists payload, Pack v = Ok payload /\ Unpack payload = Ok v.
Proof.
  intros V L. destruct (Pack_succeeds v V) as [payload P].
  exists payload. split; [assumption|].
  rewrite <- (app_nil_r payload). now apply Unpack_suffix.
Qed.

Example round_trip_empty_body :
  exists payload,
    Pack {| Type_ := "text/plain; charset=utf-8"; Body := [] |} = Ok payload /\
    Unpack payload = Ok {| Type_ := "text/plain; charset=utf-8"; Body := [] |}.
Proof. apply round_trip; vm_compute; reflexivity. Qed.

Example round_trip_large_body :
  exists payload,
    Pack {| Type_ := "RSA PRIVATE KEY"; Body := repeat (ascii_of_N 255) (N.to_nat 100000) |}
      = Ok payload /\
    Unpack payload
      = Ok {| Type_ := "RSA PRIVATE KEY"; Body := repeat (ascii_of_N 255) (N.to_nat 100000) |}.
Proof. apply round_trip; vm_compute; reflexivity. Qed.




(** ** Trailing bytes *)




(** * Further properties of the path validator *)

Lemma validators_known ring :
  In ring ring_names <-> exists v, map_lookup validators ring = Some v.
Proof.
  split.
  - unfold ring_names, strs. simpl.
    intros [<-|[<-|[<-|[<-|[<-|[<-|[]]]]]]]; eexists; reflexivity.
  - intros (v & L). apply validators_lookup in L.
    unfold ring_names, strs. simpl.
    destruct L as [[-> _]|[[-> _]|[[-> _]|[[-> _]|[[-> _]|[-> _]]]]]]; auto 10.
Qed.

Ltac never_ring_value :=
  let parts := fresh "parts" in
  intros parts ? ;
  match goal with |- ?f parts <> _ => unfold f end;
  do 6 (destruct parts as [|? parts]; [run_checks; discriminate|]);
  run_checks; discriminate.

Lemma ring_validators_own_errors ring v parts r :
  map_lookup validators ring = Some v -> v parts <> Raise (ErrRingValue r).
Proof.
  intros L. apply validators_lookup in L.
  destruct L as [[_ ->]|[[_ ->]|[[_ ->]|[[_ ->]|[[_ ->]|[_ ->]]]]]];
    revert parts r; never_ring_value.
Qed.

Lemma providers_known provider :
  In provider provider_names <->
  exists regions, map_lookup cloudProviderRegions provider = Some regions.
Proof.
  split.
  - unfold provider_names, strs. simpl.
    intros [<-|[<-|[<-|[<-|[<-|[]]]]]]; eexists; reflexivity.
  - intros (regions & L). unfold provider_names, strs. simpl.
    unfold cloudProviderRegions in L. cbn [map_lookup] in L.
    repeat match type of L with
           | context [string_eqb provider ?k] =>
               let E := fresh "E" in
               destruct (string_eqb provider k) eqn:E;
               [apply string_eqb_eq in E; subst; tauto|]
           end.
    discriminate.
Qed.

(** X1. [Validate] answers with the unknown-ring error exactly when the
    path passes the raw check, its cleaned form has two segments or more,
    and the first of them is none of the six ring names (compared as they
    are, case included); the error carries that first segment. *)
Theorem Validate_unknown_ring (p r : gostring) :
  Validate p = Raise (ErrRingValue r) <->
  validate_text p = None /\
  exists rest,
    strings.Split (Clean p) "/"%char = r :: rest /\ rest <> [] /\
    ~ In r ring_names.
Proof.
  split.
  - intros R.
    destruct (Validate_view p) as [e V|V Hl|ring rest V S Hr F];
      try discriminate.
    split; [exact V|].
    destruct (map_lookup validators ring) as [v|] eqn:L.
    + exfalso. now apply (ring_validators_own_errors ring v rest r L).
    + injection R as <-. exists rest. repeat split; try assumption.
      intros I. apply validators_known in I as (v & L'). congruence.
  - intros (V & rest & S & Hne & N).
    destruct (Validate_view p) as [e V'|V' Hl|ring rest' V' S' Hr F].
    + congruence.
    + rewrite S in Hl. destruct rest; [congruence|simpl in Hl; lia].
    + rewrite S in S'. injection S' as <- <-.
      destruct (map_lookup validators r) as [v|] eqn:L; [|reflexivity].
      exfalso. apply N, validators_known. eauto.
Qed.

Lemma minimum_respected ring v rest :
  map_lookup validators ring = Some v ->
  v rest = Success ->
  exists n, map_lookup minimum_segments ring = Some n /\ n <= len rest.
Proof.
  intros L R. apply validators_lookup in L.
  destruct L as [[-> ->]|[[-> ->]|[[-> ->]|[[-> ->]|[[-> ->]|[-> ->]]]]]];
    eexists; (split; [reflexivity|]);
    match type of R with ?f rest = _ => unfold f in R end;
    match type of R with
    | (if ?c then _ else _) = _ => destruct c eqn:C; [discriminate|]
    end;
    now apply Nat.ltb_ge in C.
Qed.

(** X2. What [Validate] accepts is well shaped: the path passes the raw
    check, the first segment of its cleaned form is one of the six ring
    names, at least as many segments follow as that ring asks for (never
    fewer than two), and every segment is a non-empty printable ASCII
    text. *)
Theorem Validate_accepts_well_shaped (p : gostring) :
  Validate p = Success ->
  validate_text p = None /\
  exists ring rest n,
    strings.Split (Clean p) "/"%char = ring :: rest /\
    In ring ring_names /\
    map_lookup minimum_segments ring = Some n /\
    2 <= n <= len rest /\
    well_formed (ring :: rest).
Proof.
  intros R.
  destruct (Validate_view p) as [e V|V Hl|ring rest V S Hr F];
    try discriminate.
  split; [exact V|].
  destruct (map_lookup validators ring) as [v|] eqn:L; [|discriminate].
  destruct (minimum_respected ring v rest L R) as (n & M & Hn).
  exists ring, rest, n. repeat split; try assumption.
  - apply validators_known. eauto.
  - apply validators_lookup in L.
    destruct L as [[-> _]|[[-> _]|[[-> _]|[[-> _]|[[-> _]|[-> _]]]]]];
      injection M as <-; lia.
Qed.

Lemma Validate_accepts_well_shaped_witness :
  validate_text "meta/cso/revision" = None /\
  exists ring rest n,
    strings.Split (Clean "meta/cso/revision") "/"%char = ring :: rest /\
    In ring ring_names /\
    map_lookup minimum_segments ring = Some n /\
    2 <= n <= len rest /\
    well_formed (ring :: rest).
Proof.
  apply (Validate_accepts_well_shaped "meta/cso/revision").
  vm_compute. reflexivity.
Defined.

Lemma validators_meta : map_lookup validators "meta" = Some validateMeta.
Proof. reflexivity. Qed.

Lemma validateMeta_wf rest :
  well_formed rest ->
  validateMeta rest = if len rest <? 2 then Raise ErrMetaPartCount else Success.
Proof.
  intros W. unfold validateMeta.
  destruct rest as [|k [|k2 tail]]; try reflexivity.
  cbn [len List.length Nat.ltb Nat.leb index nth_error bind].
  use_well_formed. reflexivity.
Qed.

(** X3. On a path of the meta ring, [Validate] succeeds exactly when the
    path passes the raw check and at least two segments follow the ring
    selector; with fewer it returns an error, the one of the meta ring
    when a single segment follows. *)
Theorem Validate_meta (p : gostring) (rest : list gostring) :
  strings.Split (Clean p) "/"%char = ("meta" : gostring) :: rest ->
  (Validate p = Success <-> validate_text p = None /\ 2 <= len rest) /\
  (len rest < 2 -> exists e, Validate p = Raise e) /\
  (validate_text p = None -> len rest = 1 -> Validate p = Raise ErrMetaPartCount).
Proof.
  intros S.
  pose proof (Validate_success p _ rest validateMeta S validators_meta) as Iff.
  assert (Validate p = Success <-> validate_text p = None /\ 2 <= len rest) as Count.
  { rewrite Iff. split.
    - intros (V & Hne & R). split; [exact V|].
      rewrite (validateMeta_wf rest (ring_well_formed p _ rest V S)) in R.
      destruct (len rest <? 2) eqn:C; [discriminate|]. now apply Nat.ltb_ge in C.
    - intros (V & C). split; [exact V|]. split; [now destruct rest|].
      rewrite (validateMeta_wf rest (ring_well_formed p _ rest V S)).
      apply Nat.ltb_ge in C. now rewrite C. }
  split; [exact Count|]. split.
  - intros C. apply Validate_fails. rewrite Count. lia.
  - intros V C.
    destruct (Validate_ring p _ rest validateMeta V S validators_meta)
      as [(E & _)|(_ & W & R)]; [subst rest; discriminate|].
    rewrite R, (validateMeta_wf rest W).
    destruct rest as [|k [|k2 tail]]; try discriminate. reflexivity.
Qed.

Lemma Validate_meta_witness : Validate "meta/cso/revision" = Success.
Proof.
  refine (proj2 (proj1 (Validate_meta "meta/cso/revision"
            (strs ["cso"; "revision"]) _)) _).
  - vm_compute. reflexivity.
  - split; [vm_compute; reflexivity|vm_compute; lia].
Defined.

(** X4. Which error an infrastructure path gets.  On a path of the infra
    ring that passes the raw check and has its four segments, a provider
    segment that is none of aws, aws-us-gov, gcp, azure and azure-us-gov
    is reported first, whatever the region; with a known provider, a
    region outside that provider's list is reported together with the
    account and the provider; no other error is possible. *)
Theorem Validate_infra_errors
  (p provider account region service : gostring) (tail : list gostring) :
  validate_text p = None ->
  strings.Split (Clean p) "/"%char =
    ("infra" : gostring) :: provider :: account :: region :: service :: tail ->
  (~ In provider provider_names ->
   Validate p = Raise (ErrInfraProvider provider)) /\
  (forall regions,
     map_lookup cloudProviderRegions provider = Some regions ->
     ~ In region regions ->
     Validate p = Raise (ErrInfraRegion region account provider)) /\
  (Validate p = Success \/
   Validate p = Raise (ErrInfraProvider provider) \/
   Validate p = Raise (ErrInfraRegion region account provider)).
Proof.
  intros V S.
  destruct (Validate_ring p _ _ validateInfra V S validators_infra)
    as [(E & _)|(_ & W & R)]; [discriminate|].
  rewrite R, validateInfra_steps. use_well_formed.
  split; [|split].
  - intros N.
    destruct (map_lookup cloudProviderRegions provider) as [r|] eqn:L;
      [|reflexivity].
    exfalso. apply N, providers_known. eauto.
  - intros regions L N. rewrite L.
    destruct (types.Contains regions region) eqn:C; [|reflexivity].
    apply Contains_In in C. contradiction.
  - destruct (map_lookup cloudProviderRegions provider) as [r|]; [|auto].
    destruct (types.Contains r region); auto.
Qed.

Lemma Validate_infra_errors_witness :
  Validate "infra/ovh/acme-prod/us-east-1/billing/db-password" =
  Raise (ErrInfraProvider "ovh").
Proof.
  refine (proj1 (Validate_infra_errors
            "infra/ovh/acme-prod/us-east-1/billing/db-password"
            "ovh" "acme-prod" "us-east-1" "billing" [("db-password" : gostring)]
            _ _) _).
  - vm_compute. reflexivity.
  - vm_compute. reflexivity.
  - vm_compute. intuition discriminate.
Defined.

(** X5. Which error a platform path gets.  On a path of the platform ring
    that passes the raw check and has its five segments, a stage that is no
    known quality level is reported first, whatever the region; with a
    known stage, a region that no provider lists is reported; no other
    error is possible. *)
Theorem Validate_platform_errors
  (p stage name region service key : gostring) (tail : list gostring) :
  validate_text p = None ->
  strings.Split (Clean p) "/"%char =
    ("platform" : gostring) :: stage :: name :: region :: service :: key :: tail ->
  (~ In stage platformQualityLevels ->
   Validate p = Raise (ErrPlatformLevel stage)) /\
  (In stage platformQualityLevels ->
   (forall provider regions,
      In (provider, regions) cloudProviderRegions -> ~ In region regions) ->
   Validate p = Raise (ErrPlatformRegion region)) /\
  (Validate p = Success \/
   Validate p = Raise (ErrPlatformLevel stage) \/
   Validate p = Raise (ErrPlatformRegion region)).
Proof.
  intros V S.
  destruct (Validate_ring p _ _ validatePlatform V S validators_platform)
    as [(E & _)|(_ & W & R)]; [discriminate|].
  rewrite R, validatePlatform_steps. use_well_formed.
  split; [|split].
  - intros N.
    destruct (types.Contains platformQualityLevels stage) eqn:C; [|reflexivity].
    apply Contains_In in C. contradiction.
  - intros I N. apply Contains_In in I. rewrite I. cbn [negb].
    destruct (existsb _ cloudProviderRegions) eqn:F; [|reflexivity].
    apply region_found in F as (provider & regions & Hp & Hr).
    exfalso. exact (N provider regions Hp Hr).
  - destruct (types.Contains platformQualityLevels stage); cbn [negb]; [|auto].
    destruct (existsb _ cloudProviderRegions); cbn [negb]; auto.
Qed.

Lemma Validate_platform_errors_witness :
  Validate "platform/preprod/checkout/nowhere/api/token" =
  Raise (ErrPlatformLevel "preprod").
Proof.
  refine (proj1 (Validate_platform_errors
            "platform/preprod/checkout/nowhere/api/token"
            "preprod" "checkout" "nowhere" "api" "token" [] _ _) _).
  - vm_compute. reflexivity.
  - vm_compute. reflexivity.
  - vm_compute. intuition discriminate.
Defined.

Ltac extend_parts :=
  let parts := fresh "parts" in
  let more := fresh "more" in
  let H := fresh "H" in
  intros parts more H;
  match goal with |- ?f _ = _ => unfold f in * end;
  do 6 (destruct parts as [|? parts];
        [cbn [len List.length Nat.ltb Nat.leb index nth_error bind app] in *;
         try discriminate H; try exact H|]);
  cbn [len List.length Nat.ltb Nat.leb index nth_error bind app] in *;
  exact H.

Lemma validateMeta_extend : forall parts more,
  validateMeta parts = Success -> validateMeta (parts ++ more) = Success.
Proof. extend_parts. Qed.

Lemma validateInfra_extend : forall parts more,
  validateInfra parts = Success -> validateInfra (parts ++ more) = Success.
Proof. extend_parts. Qed.

Lemma validatePlatform_extend : forall parts more,
  validatePlatform parts = Success -> validatePlatform (parts ++ more) = Success.
Proof. extend_parts. Qed.

Lemma validateProduct_extend : forall parts more,
  validateProduct parts = Success -> validateProduct (parts ++ more) = Success.
Proof. extend_parts. Qed.

Lemma validateApplication_extend : forall parts more,
  validateApplication parts = Success ->
  validateApplication (parts ++ more) = Success.
Proof. extend_parts. Qed.

Lemma validateArtifact_extend : forall parts more,
  validateArtifact parts = Success -> validateArtifact (parts ++ more) = Success.
Proof. extend_parts. Qed.

Lemma validators_extend ring v parts more :
  map_lookup validators ring = Some v ->
  v parts = Success ->
  v (parts ++ more) = Success.
Proof.
  intros L. apply validators_lookup in L.
  destruct L as [[_ ->]|[[_ ->]|[[_ ->]|[[_ ->]|[[_ ->]|[_ ->]]]]]];
    auto using validateMeta_extend, validateInfra_extend,
      validatePlatform_extend, validateProduct_extend,
      validateApplication_extend, validateArtifact_extend.
Qed.

(** X6. The ring validators read a fixed number of leading segments and
    nothing else: when one of the six accepts a list of segments, it
    accepts that list followed by any further segments, whatever they
    hold. *)
Theorem ring_validators_ignore_the_rest
  (ring : gostring) (v : validator) (parts more : list gostring) :
  map_lookup validators ring = Some v ->
  v parts = Success ->
  v (parts ++ more) = Success.
Proof. apply validators_extend. Qed.

Lemma ring_validators_ignore_the_rest_witness :
  validateProduct (strs ["payments"; "v2.3.1"; "key"] ++ [[]; ["000"%char]])
  = Success.
Proof.
  apply (ring_validators_ignore_the_rest "product" validateProduct).
  - reflexivity.
  - vm_compute. reflexivity.
Defined.

Lemma Split_app a b sep :
  strings.Split (a ++ sep :: b) sep = strings.Split a sep ++ strings.Split b sep.
Proof.
  induction a as [|c a IH]; simpl.
  - now rewrite Ascii.eqb_refl.
  - destruct (Ascii.eqb c sep); [now rewrite IH|].
    rewrite IH.
    destruct (strings.Split a sep) eqn:S;
      [now apply strings_facts.Split_not_nil in S|reflexivity].
Qed.

Lemma segments_app p q :
  segments (p ++ "/"%char :: q) = segments p ++ segments q.
Proof. unfold segments. now rewrite Split_app, filter_app. Qed.

(** X7. An accepted path stays accepted when further segments are added
    to it: if [Validate] accepts [p] and [q] is a non-empty printable
    ASCII text, then [Validate] accepts [p], a separator and [q]. *)
Theorem Validate_extend (p q : gostring) :
  Validate p = Success ->
  validate_text q = None ->
  Validate (p ++ "/"%char :: q) = Success.
Proof.
  intros R Vq.
  destruct (Validate_view p) as [e V|V Hl|ring rest V S Hr F];
    try discriminate.
  destruct (map_lookup validators ring) as [v|] eqn:L; [|discriminate].
  assert (segments p = ring :: rest) as Sp.
  { destruct (Split_Clean_cases p) as [(_ & _ & S')|(_ & _ & S')];
      rewrite S' in S; [|exact S].
    destruct rest; [congruence|discriminate S]. }
  assert (strings.Split (Clean (p ++ "/"%char :: q)) "/"%char
          = ring :: (rest ++ segments q)) as S'.
  { rewrite Split_Clean; rewrite segments_app, Sp; [reflexivity|discriminate]. }
  apply (Validate_success _ ring (rest ++ segments q) v S' L).
  split; [|split].
  - apply validate_text_None. split; [now destruct p|].
    apply validate_text_None in V as [_ Hp].
    apply validate_text_None in Vq as [_ Hq].
    rewrite forallb_app. cbn [forallb]. now rewrite Hp, Hq, slash_printable.
  - destruct rest; [congruence|discriminate].
  - now apply (validators_extend ring v).
Qed.

Lemma Validate_extend_witness :
  Validate ("app/staging/checkout/payments/v1.0.0/worker/key" ++
            "/"%char :: "tls/private key.pem") = Success.
Proof.
  apply (Validate_extend "app/staging/checkout/payments/v1.0.0/worker/key"
           "tls/private key.pem").
  - vm_compute. reflexivity.
  - vm_compute. reflexivity.
Defined.

(** * Further properties of the packer *)


















(** * The bundle filter task *)

Import bundle.

Lemma collect_filter `{E : Externals} (want : Package -> bool) packages :
  forall pkgs, collect want packages pkgs = pkgs ++ filter want packages.
Proof.
  induction packages as [|p rest IH]; intros pkgs; cbn [collect filter].
  - now rewrite app_nil_r.
  - rewrite IH. destruct (want p); [|reflexivity].
    now rewrite <- app_assoc.
Qed.

(** The packages a list of compiled patterns keeps: for each pattern in
    turn, the packages whose name it matches. *)
Lemma keep_loop_compiled `{E : Externals} paths res packages err :
  Forall2 (fun path re => Compile path = Ok re) paths res ->
  forall pkgs,
    keep_loop paths packages pkgs err =
    Ok (pkgs ++ flat_map (fun re =>
                  filter (fun p => MatchString re (Name p)) packages) res).
Proof.
  induction 1 as [|path re paths res C _ IH]; intros pkgs; cbn [keep_loop flat_map].
  - now rewrite app_nil_r.
  - rewrite C, IH, collect_filter. now rewrite <- app_assoc.
Qed.

Lemma keep_loop_stops `{E : Externals} good bad rest cause packages err :
  Forall (fun path => exists re, Compile path = Ok re) good ->
  Compile bad = Err cause ->
  forall pkgs,
    keep_loop (good ++ bad :: rest) packages pkgs err =
    Err (UnableToCompileKeep bad err).
Proof.
  intros G B. induction G as [|path good [re C] _ IH]; intros pkgs;
    cbn [app keep_loop].
  - now rewrite B.
  - rewrite C. apply IH.
Qed.

Lemma keep_loop_In `{E : Externals} paths packages err :
  forall pkgs out,
    keep_loop paths packages pkgs err = Ok out ->
    forall p, In p out -> In p pkgs \/ In p packages.
Proof.
  induction paths as [|path paths IH]; intros pkgs out; cbn [keep_loop].
  - intros [= <-] p H. now left.
  - destruct (Compile path) as [re|]; [|discriminate].
    intros K p H. destruct (IH _ _ K p H) as [H'|H']; [|now right].
    rewrite collect_filter in H'. apply in_app_or in H' as [H'|H'];
      [now left|right]. now apply filter_In in H'.
Qed.

Lemma keep_loop_cause `{E : Externals} paths packages err :
  forall pkgs e,
    keep_loop paths packages pkgs err = Err e ->
    exists path, e = UnableToCompileKeep path err.
Proof.
  induction paths as [|path paths IH]; intros pkgs e; cbn [keep_loop];
    [discriminate|].
  destruct (Compile path) as [re|]; [apply IH|].
  intros [= <-]. eauto.
Qed.

Lemma exclude_loop_cause `{E : Externals} paths packages err :
  forall pkgs e,
    exclude_loop paths packages pkgs err = Err e ->
    exists path, e = UnableToCompileExclusion path err.
Proof.
  induction paths as [|path paths IH]; intros pkgs e; cbn [exclude_loop];
    [discriminate|].
  destruct (Compile path) as [re|]; [apply IH|].
  intros [= <-]. eauto.
Qed.

(** What the exclusion loop leaves: the packages some pattern does not
    match. *)
Lemma exclude_loop_In `{E : Externals} paths packages err :
  forall pkgs out,
    exclude_loop paths packages pkgs err = Ok out ->
    forall p,
      In p out <->
      In p pkgs \/
      (In p packages /\
       exists path re, In path paths /\ Compile path = Ok re /\
                       MatchString re (Name p) = false).
Proof.
  induction paths as [|path paths IH]; intros pkgs out; cbn [exclude_loop].
  - intros [= <-] p. split; [now left|].
    intros [H|(_ & _ & _ & [] & _)]. exact H.
  - destruct (Compile path) as [re|] eqn:C; [|discriminate].
    intros K p. rewrite (IH _ _ K p), collect_filter, in_app_iff, filter_In.
    rewrite negb_true_iff. split.
    + intros [[H|[H M]]|(H & path' & re' & I & C' & M)].
      * now left.
      * right. split; [exact H|]. exists path, re. simpl. auto.
      * right. split; [exact H|]. exists path', re'. simpl. auto.
    + intros [H|(H & path' & re' & [<-|I] & C' & M)].
      * left. now left.
      * left. right. split; [exact H|]. congruence.
      * right. split; [exact H|]. eauto.
Qed.

Lemma select_loop_In `{E : Externals} exp packages :
  forall pkgs out,
    select_loop exp packages pkgs = Some out ->
    forall p, In p out -> In p pkgs \/ In p packages.
Proof.
  induction packages as [|q rest IH]; intros pkgs out; cbn [select_loop].
  - intros [= <-] p H. now left.
  - destruct (IsSatisfiedBy exp q) as [[|]|]; [| |discriminate];
      intros S p H; destruct (IH _ _ S p H) as [H'|H'].
    + apply in_app_or in H' as [H'|[<-|[]]]; [now left|right; now left].
    + right. now right.
    + now left.
    + right. now right.
Qed.


Lemma nonempty_length {A} (l : list A) : l <> [] -> (0 <? len l) = true.
Proof. destruct l; [congruence|reflexivity]. Qed.

(** X13. The filter never invents anything: the bundle [Run] hands to the
    container writer is the bundle it loaded with some of its packages,
    all other fields as loaded; with no keep path, no exclusion path and
    no JMESPath expression it is the loaded bundle itself. *)
Theorem Run_dumps_loaded_packages `{E : Externals}
  (t : FilterTask) (dumped : Bundle Package Fields) (r : option run_error) :
  Run t = Dumps dumped r ->
  exists reader b,
    ContainerReader t = Ok reader /\
    FromContainerReader reader = Ok b /\
    Fields_ dumped = Fields_ b /\
    (forall p, In p (Packages dumped) -> In p (Packages b)) /\
    (KeepPaths t = [] -> ExcludePaths t = [] -> JMESPath t = [] ->
     dumped = b).
Proof.
  unfold Run.
  destruct (ContainerReader t) as [reader|] eqn:C; [|discriminate].
  destruct (FromContainerReader reader) as [b|] eqn:L; [|discriminate].
  intros R. exists reader, b. split; [reflexivity|]. split; [exact L|].
  destruct (if 0 <? len (KeepPaths t) then _ else _) as [kept|] eqn:K;
    [|discriminate].
  destruct (if 0 <? len (ExcludePaths t) then _ else _) as [remaining|] eqn:X;
    [|discriminate].
  assert (forall p, In p kept -> In p (Packages b)) as Hk.
  { destruct (0 <? len (KeepPaths t)).
    - intros p H. destruct (keep_loop_In _ _ _ _ _ K p H) as [[]|H']. exact H'.
    - injection K as <-. auto. }
  assert (forall p, In p remaining -> In p (Packages b)) as Hx.
  { destruct (0 <? len (ExcludePaths t)).
    - intros p H. apply (exclude_loop_In _ _ _ _ _ X p) in H as [[]|[H _]]. auto.
    - injection X as <-. auto. }
  destruct (negb (is_empty (JMESPath t))) eqn:J.
  - destruct (jmespath_Compile (JMESPath t)) as [exp errJMESPath].
    destruct (select_loop exp remaining []) as [pkgs|] eqn:S; [|discriminate].
    destruct (OutputWriter t) as [writer|]; [|discriminate].
    injection R as <- _. cbn [Fields_ Packages].
    split; [reflexivity|]. split.
    + intros p H. destruct (select_loop_In _ _ _ _ S p H) as [[]|H']. auto.
    + intros _ _ Q. rewrite Q in J. discriminate.
  - destruct (OutputWriter t) as [writer|]; [|discriminate].
    injection R as <- _. cbn [Fields_ Packages].
    split; [reflexivity|]. split; [exact Hx|].
    intros Q1 Q2 _. rewrite Q1 in K. rewrite Q2 in X. cbn in K, X.
    injection K as <-. injection X as <-. now destruct b.
Qed.

Lemma Run_dumps_loaded_packages_witness :
  exists b : Bundle gostring unit,
    forall p, In p (strs ["app/prod/db"; "app/prod/web"]) -> In p (Packages b).
Proof.
  destruct (Run_dumps_loaded_packages (E := literal_patterns)
              (literal_task
                 (strs ["app/prod/db"; "app/staging/db"; "app/prod/web"])
                 (strs ["prod"]) [] [])
              {| Fields_ := tt;
                 Packages := strs ["app/prod/db"; "app/prod/web"] |}
              None eq_refl)
    as (reader & b & _ & _ & _ & H & _).
  exists b. exact H.
Defined.

(** X14. The keep stage alone.  When every keep path compiles, the bundle
    handed to the writer lists, for each keep path in turn, the loaded
    packages whose name it matches, in their order; a package that
    several keep paths match is therefore listed once for each. *)
Theorem Run_keep `{E : Externals}
  (t : FilterTask) (reader : Reader) (b : Bundle Package Fields)
  (writer : Writer) (res : list Regexp) :
  ContainerReader t = Ok reader ->
  FromContainerReader reader = Ok b ->
  OutputWriter t = Ok writer ->
  KeepPaths t <> [] ->
  Forall2 (fun path re => Compile path = Ok re) (KeepPaths t) res ->
  ExcludePaths t = [] ->
  JMESPath t = [] ->
  let dumped :=
    {| Fields_ := Fields_ b;
       Packages :=
         flat_map (fun re =>
                     filter (fun p => MatchString re (Name p)) (Packages b))
           res |} in
  Run t = Dumps dumped (option_map UnableToDump (ToContainerWriter writer dumped)).
Proof.
  intros R L W K C X J dumped. subst dumped. unfold Run.
  rewrite R, L, W, X, J, (nonempty_length _ K).
  rewrite (keep_loop_compiled _ _ _ _ C). reflexivity.
Qed.

Lemma Run_keep_witness :
  Run (literal_task
         (strs ["app/prod/db"; "app/staging/db"; "app/prod/web"])
         (strs ["prod"; "db"]) [] [])
  = Dumps (E := literal_patterns)
      {| Fields_ := tt;
         Packages :=
           strs ["app/prod/db"; "app/prod/web"; "app/prod/db"; "app/staging/db"] |}
      None.
Proof.
  refine (Run_keep (E := literal_patterns)
            (literal_task
               (strs ["app/prod/db"; "app/staging/db"; "app/prod/web"])
               (strs ["prod"; "db"]) [] [])
            (strs ["app/prod/db"; "app/staging/db"; "app/prod/web"])
            {| Fields_ := tt;
               Packages := strs ["app/prod/db"; "app/staging/db"; "app/prod/web"] |}
            tt (strs ["prod"; "db"]) eq_refl eq_refl eq_refl _ _ eq_refl eq_refl).
  - discriminate.
  - repeat constructor.
Defined.

(** X15. The exclusion stage alone.  A loaded package is handed to the
    writer exactly when some exclusion path does not match its name: with
    several exclusion paths a package is dropped only if all of them match
    it. *)
Theorem Run_exclude `{E : Externals}
  (t : FilterTask) (reader : Reader) (b dumped : Bundle Package Fields)
  (r : option run_error) :
  ContainerReader t = Ok reader ->
  FromContainerReader reader = Ok b ->
  KeepPaths t = [] ->
  ExcludePaths t <> [] ->
  JMESPath t = [] ->
  Run t = Dumps dumped r ->
  forall p,
    In p (Packages dumped) <->
    In p (Packages b) /\
    exists path re,
      In path (ExcludePaths t) /\ Compile path = Ok re /\
      MatchString re (Name p) = false.
Proof.
  intros R L K X J. unfold Run.
  rewrite R, L, K, J, (nonempty_length _ X). cbn [len List.length Nat.ltb Nat.leb].
  destruct (exclude_loop _ _ _ _) as [remaining|] eqn:Q; [|discriminate].
  cbn [is_empty negb].
  destruct (OutputWriter t) as [writer|]; [|discriminate].
  intros [= <- _] p. cbn [Packages].
  rewrite (exclude_loop_In _ _ _ _ _ Q p). simpl. tauto.
Qed.

Lemma Run_exclude_witness :
  In ("app/prod/db" : gostring)
    (strs ["app/prod/db"; "app/staging/db"; "app/staging/db"]).
Proof.
  refine (proj2 (Run_exclude (E := literal_patterns)
            (literal_task
               (strs ["app/prod/db"; "app/staging/db"; "app/prod/web"])
               [] (strs ["web"; "prod"]) [])
            (strs ["app/prod/db"; "app/staging/db"; "app/prod/web"])
            {| Fields_ := tt;
               Packages := strs ["app/prod/db"; "app/staging/db"; "app/prod/web"] |}
            {| Fields_ := tt;
               Packages := strs ["app/prod/db"; "app/staging/db"; "app/staging/db"] |}
            None eq_refl eq_refl eq_refl _ eq_refl _ ("app/prod/db" : gostring)) _).
  - discriminate.
  - vm_compute. reflexivity.
  - split; [now left|].
    exists ("web" : gostring), ("web" : gostring).
    split; [now left|]. split; reflexivity.
Defined.

(** X16. A keep path that does not compile stops the run before the
    output is opened: [Run] returns the error that names the first such
    path, and that error wraps nil, not the error of [regexp.Compile]. *)
Theorem Run_bad_keep_path `{E : Externals}
  (t : FilterTask) (reader : Reader) (b : Bundle Package Fields)
  (good rest : list gostring) (bad : gostring) (cause : GoError) :
  ContainerReader t = Ok reader ->
  FromContainerReader reader = Ok b ->
  KeepPaths t = good ++ bad :: rest ->
  Forall (fun path => exists re, Compile path = Ok re) good ->
  Compile bad = Err cause ->
  Run t = Returns (UnableToCompileKeep bad None).
Proof.
  intros R L K G B. unfold Run. rewrite R, L, K.
  assert ((0 <? len (good ++ bad :: rest)) = true) as ->
    by (apply nonempty_length; now destruct good).
  now rewrite (keep_loop_stops good bad rest cause _ _ G B).
Qed.

Lemma Run_bad_keep_path_witness :
  Run (literal_task (strs ["app/prod/db"]) (strs ["prod"; "(db"; "web"]) [] [])
  = Returns (E := literal_patterns) (UnableToCompileKeep ("(db" : gostring) None).
Proof.
  refine (Run_bad_keep_path (E := literal_patterns)
            (literal_task (strs ["app/prod/db"]) (strs ["prod"; "(db"; "web"]) [] [])
            (strs ["app/prod/db"])
            {| Fields_ := tt; Packages := strs ["app/prod/db"] |}
            (strs ["prod"]) (strs ["web"]) ("(db" : gostring)
            ("missing closing )" : gostring)
            eq_refl eq_refl eq_refl _ eq_refl).
  repeat constructor. exists ("prod" : gostring). reflexivity.
Defined.

(** X17. What the errors of [Run] never say: an error for a keep or an
    exclusion path wraps nil, and the error for a JMESPath expression
    that does not compile is never returned. *)
Theorem Run_loses_compile_errors `{E : Externals}
  (t : FilterTask) (e : run_error) :
  Run t = Returns e ->
  match e with
  | UnableToCompileKeep _ err | UnableToCompileExclusion _ err => err = None
  | UnableToCompileJMESPath _ _ => False
  | _ => True
  end.
Proof.
  unfold Run.
  destruct (ContainerReader t) as [reader|]; [|now intros [= <-]].
  destruct (FromContainerReader reader) as [b|]; [|now intros [= <-]].
  destruct (if 0 <? len (KeepPaths t) then _ else _) as [kept|e1] eqn:K.
  - destruct (if 0 <? len (ExcludePaths t) then _ else _) as [remaining|e2] eqn:X.
    + destruct (negb (is_empty (JMESPath t))).
      * destruct (jmespath_Compile (JMESPath t)) as [exp errJMESPath].
        destruct (select_loop exp remaining []); [|discriminate].
        destruct (OutputWriter t); [discriminate|now intros [= <-]].
      * destruct (OutputWriter t); [discriminate|now intros [= <-]].
    + intros [= <-]. destruct (0 <? len (ExcludePaths t)); [|discriminate].
      now destruct (exclude_loop_cause _ _ _ _ _ X) as [path ->].
  - intros [= <-]. destruct (0 <? len (KeepPaths t)); [|discriminate].
    now destruct (keep_loop_cause _ _ _ _ _ K) as [path ->].
Qed.

Lemma Run_loses_compile_errors_witness : @None gostring = None.
Proof.
  exact (Run_loses_compile_errors (E := literal_patterns)
           (literal_task (strs ["app/prod/db"]) (strs ["prod"]) (strs ["(db"]) [])
           (UnableToCompileExclusion ("(db" : gostring) None) eq_refl).
Defined.


